(** * MintDiff: classification and line reconciliation ([src/lib/diff.ts])

    A shallow embedding of the helpers of [src/lib/diff.ts], of the route
    [src/app/api/diff/route.ts] that composes them and of the validation
    and navigation logic of the page [src/app/page.tsx], followed by the
    properties of the specification that can be settled on that code and
    by further properties of the code.

    Conventions of the embedding.
    - A JavaScript string is a [string]; [split], [replace],
      [startsWith], [includes], [lastIndexOf] and [slice] are applied with
      ASCII arguments only, so the encoding of other characters is
      irrelevant.
    - [JS.toLowerCase] folds [A-Z] only.  It stands for
      [String.prototype.toLowerCase] where the result is compared with the
      ASCII tables below ([isProbablyText], [sniffMime]): the only
      characters outside ASCII whose lower case contains an ASCII letter
      are the Kelvin sign (lowered to [k]) and the dotted capital I
      (lowered to [i] followed by a combining dot), no table entry
      contains a [k], none ends with an [i] and none contains a combining
      dot, so the comparisons come out the same.  Where the lowered string
      itself is returned ([extensionOf]), the function is a parameter.
    - A [Buffer] is a [list byte].
    - An optional parameter ([mime?: string]) is an [option].
    - A JavaScript number that holds a count is a [nat]; where the code
      divides, the count is converted to a binary64 [float] and the
      kernel's IEEE-754 primitives are used.
    - The two third-party routines ([fileTypeFromBuffer] of [file-type],
      [diffLines] of [diff]) are not part of the repository: the code that
      calls them is parametrised by them, and so is the route by the
      platform's SHA-256 digest and UTF-8 decoder. *)

From Stdlib Require Import List Strings.String Strings.Ascii Strings.Byte.
From Stdlib Require Import Bool Arith ZArith NArith Lia.
From Stdlib Require Import Floats.PrimFloat Floats.FloatOps Floats.SpecFloat.
From Stdlib Require Import Floats.FloatAxioms.
From Stdlib Require Import Numbers.Cyclic.Int63.Uint63.
Import ListNotations.

Local Open Scope string_scope.
Local Open Scope list_scope.

(** ** JavaScript primitives used by the code *)

Module JS.

Definition LF : ascii := "010"%char.
Definition CR : ascii := "013"%char.

(** [a ?? b] on an optional string. *)
Definition nullish (a : option string) (b : string) : string :=
  match a with
  | Some s => s
  | None => b
  end.

(** Truthiness of an optional string: defined and not empty. *)
Definition truthy (a : option string) : bool :=
  match a with
  | Some s => negb (s =? "")
  | None => false
  end.

Definition lowerChar (c : ascii) : ascii :=
  let n := N_of_ascii c in
  if ((65 <=? n) && (n <=? 90))%N then ascii_of_N (n + 32) else c.

(** [s.toLowerCase()]. *)
Fixpoint toLowerCase (s : string) : string :=
  match s with
  | EmptyString => EmptyString
  | String c rest => String (lowerChar c) (toLowerCase rest)
  end.

(** [s.startsWith(p)]. *)
Definition startsWith (s p : string) : bool := String.prefix p s.

(** [arr.includes(x)] on an array of strings. *)
Definition includes (arr : list string) (x : string) : bool :=
  existsb (fun y => y =? x) arr.

(** [s.split("\n")]. *)
Fixpoint split (s : string) : list string :=
  match s with
  | EmptyString => [EmptyString]
  | String c rest =>
      if Ascii.eqb c LF then EmptyString :: split rest
      else match split rest with
           | piece :: pieces => String c piece :: pieces
           | [] => [String c EmptyString]
           end
  end.

(** [s.replace(/\r\n/g, "\n")]: one left-to-right pass. *)
Fixpoint replaceCRLF (s : string) : string :=
  match s with
  | EmptyString => EmptyString
  | String c rest =>
      if Ascii.eqb c CR then
        match rest with
        | String d rest' =>
            if Ascii.eqb d LF then String LF (replaceCRLF rest')
            else String c (replaceCRLF rest)
        | EmptyString => String c (replaceCRLF rest)
        end
      else String c (replaceCRLF rest)
  end.

(** [s.replace(/\r/g, "\n")]. *)
Fixpoint replaceCR (s : string) : string :=
  match s with
  | EmptyString => EmptyString
  | String c rest =>
      String (if Ascii.eqb c CR then LF else c) (replaceCR rest)
  end.

(** A count as a JavaScript number (exact below [2^53]). *)
Definition toNumber (n : nat) : float :=
  PrimFloat.of_uint63 (Uint63.of_Z (Z.of_nat n)).

(** [Math.round(x)]: the integer nearest to [x], ties towards
    [+infinity], computed exactly from the binary representation of
    [x].  The argument is finite wherever the code calls it (the divisor
    is a non-zero count); the value [0] given to [NaN] and to the
    infinities is a convention of the embedding. *)
Definition Math_round (x : float) : Z :=
  match Prim2SF x with
  | S754_finite s m e =>
      let v := if s then Z.neg m else Z.pos m in
      if (0 <=? e)%Z then (v * 2 ^ e)%Z
      else ((2 * v + 2 ^ (- e)) / 2 ^ (- e + 1))%Z
  | _ => 0%Z
  end.

(** [s.lastIndexOf(c)] for a one-character search string; [-1] when the
    character does not occur. *)
Fixpoint lastIndexOf (s : string) (c : ascii) : Z :=
  match s with
  | EmptyString => (-1)%Z
  | String d rest =>
      let r := lastIndexOf rest c in
      if (r =? -1)%Z then (if Ascii.eqb d c then 0%Z else (-1)%Z)
      else (r + 1)%Z
  end.

Fixpoint drop (n : nat) (s : string) : string :=
  match n, s with
  | O, _ => s
  | S n', String _ rest => drop n' rest
  | S _, EmptyString => EmptyString
  end.

(** [s.slice(start)] for a start that is not negative. *)
Definition slice (s : string) (start : Z) : string := drop (Z.to_nat start) s.

End JS.

(** ** Constant tables *)

Definition TEXT_MIME_HINTS : list string :=
  [ "application/json";
    "application/xml";
    "application/yaml";
    "application/x-yaml";
    "application/toml";
    "application/javascript";
    "application/typescript";
    "application/graphql";
    "text/" ].

Definition TEXT_EXT_HINTS : list string :=
  [ "txt"; "md"; "json"; "yaml"; "yml"; "xml"; "toml"; "csv";
    "ts"; "tsx"; "js"; "jsx"; "css"; "html" ].

Definition BINARY_MIME_HINTS : list string :=
  [ "image/";
    "audio/";
    "video/";
    "application/pdf";
    "application/zip";
    "application/x-zip-compressed" ].

Definition CONTROL_BYTES : list N :=
  [ 0; 1; 2; 3; 4; 5; 6; 14; 15; 16; 17; 18; 19; 20; 21; 22; 23; 24; 25; 26;
    27; 28; 29; 30; 31 ]%N.

(** [CONTROL_BYTES.has(byte)]. *)
Definition CONTROL_BYTES_has (b : byte) : bool :=
  existsb (N.eqb (Byte.to_N b)) CONTROL_BYTES.

Definition MAX_SNIFF_BYTES : nat := 4096.

(** ** Line helpers *)

Definition splitPreserve (value : string) : list string :=
  if value =? "" then []
  else
    let lines := JS.split value in
    match last lines "x" with
    | EmptyString => removelast lines
    | String _ _ => lines
    end.

Definition normalizeNewlines (value : string) : string :=
  JS.replaceCR (JS.replaceCRLF value).

(** ** Classifier *)

(** The result of [fileTypeFromBuffer], when a signature is recognised. *)
Record FileTypeResult : Type := mkFileTypeResult {
  ft_ext : string;
  ft_mime : string
}.

Section Sniff.

(** The signature sniffer of the [file-type] package. *)
Variable fileTypeFromBuffer : list byte -> option FileTypeResult.

Definition sniffMime (buffer : list byte) (provided extension : option string)
  : string :=
  let detected := fileTypeFromBuffer buffer in
  if JS.truthy (option_map ft_mime detected) then
    JS.nullish (option_map ft_mime detected) ""
  else if JS.truthy provided then JS.nullish provided ""
  else
    let ext := JS.toLowerCase (JS.nullish extension "") in
    if JS.includes TEXT_EXT_HINTS ext then "text/plain"
    else "application/octet-stream".

End Sniff.

(** The body of the [for ... of] loop of [controlRatio]: [inl r] is the
    early [return r], [inr n] the value of [controlCount] after the loop. *)
Fixpoint controlScan (sample : list byte) (controlCount : nat)
  : float + nat :=
  match sample with
  | [] => inr controlCount
  | b :: rest =>
      if (Byte.to_N b =? 0)%N then inl 1%float
      else controlScan rest
             (if CONTROL_BYTES_has b then controlCount + 1 else controlCount)
  end.

Definition controlRatio (buffer : list byte) : float :=
  let sample :=
    if (MAX_SNIFF_BYTES <? List.length buffer)%nat
    then firstn MAX_SNIFF_BYTES buffer
    else buffer in
  if (List.length sample =? 0)%nat then 0%float
  else
    match controlScan sample 0 with
    | inl r => r
    | inr controlCount =>
        (JS.toNumber controlCount / JS.toNumber (List.length sample))%float
    end.

(** [HINTS.some((hint) => normalizedMime.startsWith(hint))]. *)
Definition someStartsWith (hints : list string) (normalizedMime : string)
  : bool :=
  existsb (fun hint => JS.startsWith normalizedMime hint) hints.

(** The double nearest to [0.1]. *)
Definition one_tenth : float := 0x1.999999999999ap-4%float.

Definition isProbablyText (buffer : list byte) (mime extension : option string)
  : bool :=
  let normalizedMime := JS.toLowerCase (JS.nullish mime "") in
  if someStartsWith TEXT_MIME_HINTS normalizedMime then true
  else if someStartsWith BINARY_MIME_HINTS normalizedMime then false
  else if
    ((normalizedMime =? "application/octet-stream")
     || (normalizedMime =? "")
     || (normalizedMime =? "application/x-empty"))
    && JS.includes TEXT_EXT_HINTS (JS.toLowerCase (JS.nullish extension ""))
  then true
  else if
    JS.truthy extension
    && JS.includes TEXT_EXT_HINTS (JS.toLowerCase (JS.nullish extension ""))
  then true
  else
    let ratio := controlRatio buffer in
    (ratio <? one_tenth)%float.

Inductive FileKind : Type := text | binary.

Definition classifyKind (buffer : list byte) (mime extension : option string)
  : FileKind :=
  if isProbablyText buffer mime extension then text else binary.

(** The classification performed by [loadFile] in
    [src/app/api/diff/route.ts]: the media type is sniffed first, and the
    sniffed type (not the declared one) is what [classifyKind] receives. *)
Record Classification : Type := mkClassification {
  isText : bool;
  mediaType : string
}.

Definition classify (fileTypeFromBuffer : list byte -> option FileTypeResult)
  (buffer : list byte) (declaredMediaType fileExtension : option string)
  : Classification :=
  let inferredMime :=
    sniffMime fileTypeFromBuffer buffer declaredMediaType fileExtension in
  let kind := classifyKind buffer (Some inferredMime) fileExtension in
  mkClassification
    (match kind with text => true | binary => false end)
    inferredMime.

(** ** Line reconciler *)

(** A change object returned by [diffLines]: a run of whole lines, with
    the flags [added] and [removed] (absent, hence falsy, on an unchanged
    run). *)
Module Change.
Record t : Type := mk {
  value : string;
  added : bool;
  removed : bool
}.
End Change.

Inductive DiffLineType : Type := unchanged | added | removed | modified.

Module DiffLine.
Record t : Type := mk {
  type : DiffLineType;
  oldNumber : option nat;
  newNumber : option nat;
  before : option string;
  after : option string
}.
End DiffLine.

Module DiffSummary.
Record t : Type := mk {
  identical : bool;
  totalLines : nat;
  added : nat;
  removed : nat;
  modified : nat;
  changePercent : Z
}.
End DiffSummary.

(** The local variables that the loop of [computeTextDiff] updates. *)
Module Loop.
Record state : Type := mk {
  diff : list DiffLine.t;
  added : nat;
  removed : nat;
  modified : nat;
  oldLine : nat;
  newLine : nat
}.
Definition init : state := mk [] 0 0 0 1 1.
End Loop.

(** The four [diff.push] blocks, each with its counter updates. *)
Definition pushModified (st : Loop.state) (before after : string)
  : Loop.state :=
  Loop.mk
    (Loop.diff st ++
       [DiffLine.mk modified (Some (Loop.oldLine st))
          (Some (Loop.newLine st)) (Some before) (Some after)])
    (Loop.added st) (Loop.removed st) (Loop.modified st + 1)
    (Loop.oldLine st + 1) (Loop.newLine st + 1).

Definition pushRemoved (st : Loop.state) (before : string) : Loop.state :=
  Loop.mk
    (Loop.diff st ++
       [DiffLine.mk removed (Some (Loop.oldLine st)) None (Some before) None])
    (Loop.added st) (Loop.removed st + 1) (Loop.modified st)
    (Loop.oldLine st + 1) (Loop.newLine st).

Definition pushAdded (st : Loop.state) (after : string) : Loop.state :=
  Loop.mk
    (Loop.diff st ++
       [DiffLine.mk added None (Some (Loop.newLine st)) None (Some after)])
    (Loop.added st + 1) (Loop.removed st) (Loop.modified st)
    (Loop.oldLine st) (Loop.newLine st + 1).

Definition pushUnchanged (st : Loop.state) (line : string) : Loop.state :=
  Loop.mk
    (Loop.diff st ++
       [DiffLine.mk unchanged (Some (Loop.oldLine st))
          (Some (Loop.newLine st)) (Some line) (Some line)])
    (Loop.added st) (Loop.removed st) (Loop.modified st)
    (Loop.oldLine st + 1) (Loop.newLine st + 1).

(** One iteration of the inner loop [for (let j = 0; j < max; j += 1)]. *)
Definition groupStep (removedLines addedLines : list string)
  (st : Loop.state) (j : nat) : Loop.state :=
  let before := nth_error removedLines j in
  let after := nth_error addedLines j in
  match before, after with
  | Some b, Some a => pushModified st b a
  | Some b, None => pushRemoved st b
  | None, Some a => pushAdded st a
  | None, None => st
  end.

(** The modification group: a removed block followed by an added block. *)
Definition group (removedLines addedLines : list string) (st : Loop.state)
  : Loop.state :=
  let max := Nat.max (List.length removedLines) (List.length addedLines) in
  fold_left (groupStep removedLines addedLines) (seq 0 max) st.

(** The three branches for a change that does not open a group. *)
Definition single (current : Change.t) (st : Loop.state) : Loop.state :=
  let lines := splitPreserve (Change.value current) in
  if Change.added current then fold_left pushAdded lines st
  else if Change.removed current then fold_left pushRemoved lines st
  else fold_left pushUnchanged lines st.

(** The loop [for (let i = 0; i < changes.length; i += 1)], run from the
    changes that remain at index [i]; a group consumes two of them
    ([i += 1; continue]). *)
Fixpoint scan (changes : list Change.t) (st : Loop.state) : Loop.state :=
  match changes with
  | [] => st
  | current :: rest =>
      match rest with
      | next :: rest' =>
          if Change.removed current && Change.added next then
            scan rest'
              (group (splitPreserve (Change.value current))
                 (splitPreserve (Change.value next)) st)
          else scan rest (single current st)
      | [] => scan rest (single current st)
      end
  end.

Record TextDiff : Type := mkTextDiff {
  lines : list DiffLine.t;
  summary : DiffSummary.t
}.

(** [Math.min(100, Math.max(0, Math.round((changesCount / totalLines) * 100)))],
    the operations taken in the order the code takes them. *)
Definition percent (changesCount totalLines : nat) : Z :=
  Z.min 100
    (Z.max 0
       (JS.Math_round
          (JS.toNumber changesCount / JS.toNumber totalLines * 100)%float)).

Section Reconciler.

(** The line differ of the [diff] package. *)
Variable diffLines : string -> string -> list Change.t.

Definition computeTextDiff (original comparison : string) : TextDiff :=
  let normalizedLeft := normalizeNewlines original in
  let normalizedRight := normalizeNewlines comparison in
  let leftLines := splitPreserve normalizedLeft in
  let rightLines := splitPreserve normalizedRight in
  let changes := diffLines normalizedLeft normalizedRight in
  let st := scan changes Loop.init in
  let totalLines := Nat.max (List.length leftLines) (List.length rightLines) in
  let changesCount :=
    Loop.added st + Loop.removed st + Loop.modified st in
  let changePercent :=
    if (totalLines =? 0)%nat then 0%Z else percent changesCount totalLines in
  mkTextDiff (Loop.diff st)
    (DiffSummary.mk (changesCount =? 0)%nat totalLines
       (Loop.added st) (Loop.removed st) (Loop.modified st) changePercent).

End Reconciler.

(** ** A reference line differ

    [diffLines] of the [diff] package is imported by [src/lib/diff.ts] and
    is not part of the repository.  The reconciler above is parametrised
    by it; the definitions below are a small executable stand-in with the
    behaviour the package documents for its default options, so that the
    reconciler can be run on concrete texts:
    - a token is a line together with its terminator (a last line without
      terminator is a token of its own);
    - the tokens are aligned along a longest common subsequence;
    - adjacent tokens of the same kind are merged into one change, and a
      replaced block lists its removal before its insertion.
    Where several longest common subsequences exist, the stand-in may
    choose another one than the package does; it is used on concrete
    texts only, never in the statement of a general property. *)

Module LineDiff.

Fixpoint tokenize (s : string) : list string :=
  match s with
  | EmptyString => []
  | String c rest =>
      if Ascii.eqb c JS.LF then String c EmptyString :: tokenize rest
      else match tokenize rest with
           | tok :: toks => String c tok :: toks
           | [] => [String c EmptyString]
           end
  end.

Inductive edit : Type :=
| Keep (tok : string)
| Del (tok : string)
| Ins (tok : string).

Definition isKeep (e : edit) : bool :=
  match e with
  | Keep _ => true
  | _ => false
  end.

Definition keeps (es : list edit) : nat := List.length (filter isKeep es).

(** The script that keeps more tokens; the first one on a tie. *)
Definition better (a b : list edit) : list edit :=
  if (keeps a <? keeps b)%nat then b else a.

Fixpoint script (xs ys : list string) : list edit :=
  match xs with
  | [] => map Ins ys
  | x :: xs' =>
      (fix inner (ys : list string) : list edit :=
         match ys with
         | [] => map Del (x :: xs')
         | y :: ys' =>
             if (x =? y)%string then Keep x :: script xs' ys'
             else better (Del x :: script xs' ys) (Ins y :: inner ys')
         end) ys
  end.

Definition changeOf (e : edit) : Change.t :=
  match e with
  | Keep tok => Change.mk tok false false
  | Del tok => Change.mk tok false true
  | Ins tok => Change.mk tok true false
  end.

Definition sameKind (a b : Change.t) : bool :=
  Bool.eqb (Change.added a) (Change.added b)
  && Bool.eqb (Change.removed a) (Change.removed b).

Fixpoint runs (es : list edit) : list Change.t :=
  match es with
  | [] => []
  | e :: es' =>
      let c := changeOf e in
      match runs es' with
      | r :: rs =>
          if sameKind c r then
            Change.mk (Change.value c ++ Change.value r)
              (Change.added c) (Change.removed c) :: rs
          else c :: r :: rs
      | [] => [c]
      end
  end.

Definition diffLines (oldStr newStr : string) : list Change.t :=
  runs (script (tokenize oldStr) (tokenize newStr)).

End LineDiff.

(** ** Vocabulary of the specification *)

(** A text given by its lines, each followed by a line feed. *)
Fixpoint unlines (ls : list string) : string :=
  match ls with
  | [] => EmptyString
  | l :: ls' => l ++ String JS.LF (unlines ls')
  end.

(** Every line feed replaced by carriage return, line feed. *)
Fixpoint crlf (s : string) : string :=
  match s with
  | EmptyString => EmptyString
  | String c rest =>
      if Ascii.eqb c JS.LF then String JS.CR (String JS.LF (crlf rest))
      else String c (crlf rest)
  end.

(** Does a carriage return immediately precede a line feed somewhere? *)
Fixpoint hasCRLF (s : string) : bool :=
  match s with
  | EmptyString => false
  | String c rest =>
      match rest with
      | String d _ => (Ascii.eqb c JS.CR && Ascii.eqb d JS.LF) || hasCRLF rest
      | EmptyString => false
      end
  end.

(** Does the text end with a line feed? *)
Fixpoint endsWithLF (s : string) : bool :=
  match s with
  | EmptyString => false
  | String c EmptyString => Ascii.eqb c JS.LF
  | String _ rest => endsWithLF rest
  end.

(** [round(100 * changes / total)] over the rationals, halves rounded up,
    clamped to [0, 100]. *)
Definition exactPercent (changesCount totalLines : nat) : Z :=
  Z.min 100
    (Z.max 0
       ((200 * Z.of_nat changesCount + Z.of_nat totalLines)
        / (2 * Z.of_nat totalLines))).

(** A declared type that is empty counts as absent. *)
Definition present (o : option string) : option string :=
  match o with
  | Some s => if (s =? "")%string then None else Some s
  | None => None
  end.

(** The media type as the specification words it. *)
Definition specMediaType (sniffed declared : option string)
  (extensionListed : bool) : string :=
  match sniffed with
  | Some m => m
  | None =>
      match declared with
      | Some d => d
      | None =>
          if extensionListed then "text/plain"
          else "application/octet-stream"
      end
  end.

(** The verdict of content sniffing alone. *)
Definition sniffVerdict (buffer : list byte) : bool :=
  (controlRatio buffer <? one_tenth)%float.

(** The annotated lines a run is expected to give, by index [j] in the
    run; [o] and [n] are the old and new line numbers of its first line. *)
Definition modifiedAt (o n : nat) (dels ins : list string) (j : nat)
  : DiffLine.t :=
  DiffLine.mk modified (Some (o + j)) (Some (n + j))
    (nth_error dels j) (nth_error ins j).

Definition removedAt (o : nat) (dels : list string) (j : nat) : DiffLine.t :=
  DiffLine.mk removed (Some (o + j)) None (nth_error dels j) None.

Definition addedAt (n : nat) (ins : list string) (j : nat) : DiffLine.t :=
  DiffLine.mk added None (Some (n + j)) None (nth_error ins j).

(** A modification group: pairs up to the shorter length, then the
    leftover of the longer side. *)
Definition groupLines (o n : nat) (dels ins : list string)
  : list DiffLine.t :=
  let m := Nat.min (List.length dels) (List.length ins) in
  map (modifiedAt o n dels ins) (seq 0 m)
  ++ map (removedAt o dels) (seq m (List.length dels - m))
  ++ map (addedAt n ins) (seq m (List.length ins - m)).

(** A change that is neither an insertion nor a deletion. *)
Definition isEqualRun (c : Change.t) : Prop :=
  Change.added c = false /\ Change.removed c = false.

(** Is the last change of [pre] a deletion? *)
Fixpoint endsWithDeleted (pre : list Change.t) : bool :=
  match pre with
  | [] => false
  | c :: pre' =>
      match pre' with
      | [] => Change.removed c
      | _ :: _ => endsWithDeleted pre'
      end
  end.

(** Is the first change of [post] an insertion? *)
Definition startsWithInserted (post : list Change.t) : bool :=
  match post with
  | c :: _ => Change.added c
  | [] => false
  end.

(** Does the text contain a carriage return? *)
Fixpoint hasCR (s : string) : bool :=
  match s with
  | EmptyString => false
  | String c rest => Ascii.eqb c JS.CR || hasCR rest
  end.

(** Forty distinct lines, for the examples. *)
Definition fortyLines : list string :=
  [ "a"; "b"; "c"; "d"; "e"; "f"; "g"; "h"; "i"; "j";
    "k"; "l"; "m"; "n"; "o"; "p"; "q"; "r"; "s"; "t";
    "u"; "v"; "w"; "x"; "y"; "z"; "0"; "1"; "2"; "3";
    "4"; "5"; "6"; "7"; "8"; "9"; "A"; "B"; "C"; "D" ].

(** Nothing counted as a change so far, and only [unchanged] lines. *)
Definition onlyUnchanged (st : Loop.state) : Prop :=
  Loop.added st = 0 /\ Loop.removed st = 0 /\ Loop.modified st = 0
  /\ Forall (fun l => DiffLine.type l = unchanged) (Loop.diff st).

(** ** The remaining helpers of [src/lib/diff.ts] *)

Section Extension.

(** [String.prototype.toLowerCase], which folds every cased character. *)
Variable toLowerCase : string -> string.

Definition extensionOf (name : string) : string :=
  let last := JS.lastIndexOf name "."%char in
  if ((last =? -1) || (last =? Z.of_nat (String.length name) - 1))%Z
  then EmptyString
  else toLowerCase (JS.slice name (last + 1)).

End Extension.

Section Decode.

(** [new TextDecoder("utf-8", { fatal: false }).decode]: total, it
    replaces what it cannot decode. *)
Variable utf8Decode : list byte -> string.

Definition decodeText (buffer : list byte) : string :=
  normalizeNewlines (utf8Decode buffer).

End Decode.

Record FileDescriptor : Type := mkFileDescriptor {
  fd_name : string;
  fd_extension : string;
  fd_size : N;
  fd_mime : string;
  fd_hash : string;
  fd_kind : FileKind;
  fd_warnings : option (list string)
}.

Section Descriptor.

Variable toLowerCase : string -> string.

(** [crypto.createHash("sha256").update(buffer).digest("hex")]. *)
Variable hashBuffer : list byte -> string.

Definition buildDescriptor (name mime : string) (buffer : list byte)
  (kind : FileKind) (warnings : option (list string)) : FileDescriptor :=
  mkFileDescriptor name (extensionOf toLowerCase name)
    (N.of_nat (List.length buffer)) mime (hashBuffer buffer) kind warnings.

End Descriptor.

(** ** The route [src/app/api/diff/route.ts] *)

Definition MAX_FILE_SIZE : N := 5 * 1024 * 1024.
Definition MAX_COMBINED_SIZE : N := 8 * 1024 * 1024.
Definition BLOCKED_MIME_PREFIXES : list string := [ "video/"; "audio/" ].

(** An uploaded [File]: its name, its declared type and its bytes;
    [file.size] is the number of bytes. *)
Record File : Type := mkFile {
  file_name : string;
  file_type : string;
  file_bytes : list byte
}.

Definition file_size (f : File) : N := N.of_nat (List.length (file_bytes f)).

(** A value of the form field [files]: a file or a string. *)
Inductive FormEntry : Type :=
| FileEntry (f : File)
| StringEntry (s : string).

Record LoadedFile : Type := mkLoadedFile {
  descriptor : FileDescriptor;
  loaded_text : option string
}.

Record DiffResult : Type := mkDiffResult {
  dr_files : FileDescriptor * FileDescriptor;
  dr_summary : DiffSummary.t;
  dr_textDiff : option (list DiffLine.t);
  dr_warnings : option (list string)
}.

(** A response: [validationError] answers with status 400, a result with
    status 200. *)
Inductive Response : Type :=
| validationError (message : string)
| json (result : DiffResult).

Definition blockedWarning : string :=
  "Large media files are blocked in the MVP. Provide text-like files instead.".

Definition binaryWarning : string :=
  "One or both files are binary. Text diff view is not available in the MVP.".

(** [list.length ? list : undefined]. *)
Definition nonEmpty {A : Type} (l : list A) : option (list A) :=
  match l with
  | [] => None
  | _ :: _ => Some l
  end.

(** [!text] for an optional string. *)
Definition falsy (a : option string) : bool := negb (JS.truthy a).

Section Route.

Variable toLowerCase : string -> string.
Variable fileTypeFromBuffer : list byte -> option FileTypeResult.
Variable hashBuffer : list byte -> string.
Variable utf8Decode : list byte -> string.
Variable diffLines : string -> string -> list Change.t.

(** The decoder is not fatal, so the [catch] branch of [loadFile] is never
    taken. *)
Definition loadFile (file : File) : LoadedFile :=
  let buffer := file_bytes file in
  let ext := extensionOf toLowerCase (file_name file) in
  let inferredMime :=
    sniffMime fileTypeFromBuffer buffer (Some (file_type file)) (Some ext) in
  let kind := classifyKind buffer (Some inferredMime) (Some ext) in
  let warnings :=
    if existsb (fun prefix => JS.startsWith inferredMime prefix)
         BLOCKED_MIME_PREFIXES
    then [blockedWarning] else [] in
  let text_ :=
    match kind, warnings with
    | text, [] => Some (decodeText utf8Decode buffer)
    | _, _ => None
    end in
  mkLoadedFile
    (buildDescriptor toLowerCase hashBuffer (file_name file) inferredMime
       buffer kind
       (nonEmpty warnings))
    text_.

Definition isTextKind (k : FileKind) : bool :=
  match k with
  | text => true
  | binary => false
  end.

(** The [File] values of the form field [files]. *)
Definition uploadedFiles (entries : list FormEntry) : list File :=
  flat_map
    (fun entry =>
       match entry with
       | FileEntry f => [f]
       | StringEntry _ => []
       end) entries.

(** The handler from [const [left, right] = loadedFiles] on. *)
Definition respond (left_ right_ : LoadedFile) : Response :=
  let warnings :=
    flat_map
      (fun loaded =>
         match fd_warnings (descriptor loaded) with
         | Some ws => ws
         | None => []
         end) [left_; right_] in
  let hashesMatch :=
    (fd_hash (descriptor left_) =? fd_hash (descriptor right_))%string in
  let sizesMatch :=
    (fd_size (descriptor left_) =? fd_size (descriptor right_))%N in
  let summary0 :=
    DiffSummary.mk (hashesMatch && sizesMatch) 0 0 0 0
      (if hashesMatch && sizesMatch then 0%Z else 100%Z) in
  if isTextKind (fd_kind (descriptor left_))
     && isTextKind (fd_kind (descriptor right_))
  then
    if falsy (loaded_text left_) || falsy (loaded_text right_) then
      validationError "Could not read text contents from both files."
    else
      let diff :=
        computeTextDiff diffLines
          (JS.nullish (loaded_text left_) "")
          (JS.nullish (loaded_text right_) "") in
      json
        (mkDiffResult (descriptor left_, descriptor right_)
           (summary diff) (Some (lines diff)) (nonEmpty warnings))
  else
    json
      (mkDiffResult (descriptor left_, descriptor right_)
         summary0 None (nonEmpty (warnings ++ [binaryWarning]))).

(** The handler, from the parsed form data ([None] when the body is not
    form data).  The last branch is never taken: two files are loaded. *)
Definition POST (formData : option (list FormEntry)) : Response :=
  match formData with
  | None => validationError "Invalid form data."
  | Some entries =>
      let files := uploadedFiles entries in
      if negb (List.length files =? 2)%nat then
        validationError "Please upload exactly two files."
      else if existsb (fun file => (MAX_FILE_SIZE <? file_size file)%N) files
      then validationError "Each file must be 5 MB or smaller."
      else
        let combinedSize :=
          fold_left (fun total file => (total + file_size file)%N) files 0%N in
        if (MAX_COMBINED_SIZE <? combinedSize)%N then
          validationError "Combined file size must be 8 MB or smaller."
        else
          match map loadFile files with
          | [left_; right_] => respond left_ right_
          | _ => validationError "Please upload exactly two files."
          end
  end.

End Route.

(** ** The page [src/app/page.tsx] *)

Definition BLOCKED_PREFIXES : list string := [ "video/"; "audio/" ].

(** The validation of the uploader; [None] is [null], no error. *)
Definition validateFiles (files : list File) : option string :=
  if (List.length files =? 0)%nat then Some "Select at least one file."
  else if (2 <? List.length files)%nat then
    Some "Only two files can be compared at once. Reset to replace."
  else if existsb (fun file => (MAX_FILE_SIZE <? file_size file)%N) files then
    Some "Each file must be 5 MB or smaller."
  else if
    existsb
      (fun file =>
         existsb (fun prefix => JS.startsWith (file_type file) prefix)
           BLOCKED_PREFIXES) files
  then Some "Videos and audio files are blocked for the MVP."
  else if
    (List.length files =? 2)%nat
    && (MAX_COMBINED_SIZE
        <? fold_left (fun sum file => sum + file_size file) files 0)%N
  then Some "Combined file size must be 8 MB or smaller."
  else None.

Definition isChange (line : DiffLine.t) : bool :=
  match DiffLine.type line with
  | unchanged => false
  | _ => true
  end.

Definition displayedLines (hideUnchanged : bool)
  (textDiff : option (list DiffLine.t)) : list DiffLine.t :=
  match textDiff with
  | None => []
  | Some ls => if hideUnchanged then filter isChange ls else ls
  end.

(** [lines.forEach((line, idx) => { if (isChange(line)) positions.push(idx) })],
    from index [idx] on. *)
Fixpoint changePositionsFrom (idx : nat) (ls : list DiffLine.t) : list nat :=
  match ls with
  | [] => []
  | line :: rest =>
      if isChange line then idx :: changePositionsFrom (S idx) rest
      else changePositionsFrom (S idx) rest
  end.

Definition changePositions (displayed : list DiffLine.t) : list nat :=
  changePositionsFrom 0 displayed.

(** [handleFiles], on the files of the current selection (the selected
    items wrap them with a key): the new selection. *)
Definition handleFiles (currentFiles : list File)
  (files : option (list File)) : list File :=
  match files with
  | None => currentFiles
  | Some incoming =>
      if (List.length incoming =? 0)%nat then currentFiles
      else
        let merged := currentFiles ++ incoming in
        match validateFiles merged with
        | Some _ => currentFiles
        | None => firstn 2 merged
        end
  end.

(** The two handlers that set the selection: [handleFiles] (file input
    and drop) and [clear]. *)
Inductive PageEvent : Type :=
| FilesChosen (files : option (list File))
| Cleared.

Definition pageStep (currentFiles : list File) (e : PageEvent) : list File :=
  match e with
  | FilesChosen files => handleFiles currentFiles files
  | Cleared => []
  end.

(** The selection after a sequence of events, from the empty selection
    the page starts with. *)
Definition runPage (events : list PageEvent) : list File :=
  fold_left pageStep events [].

(** ** Vocabulary of the further properties *)

Definition optList {A : Type} (o : option A) : list A :=
  match o with
  | Some x => [x]
  | None => []
  end.

(** The texts of the old side and of the new side of an output, and the
    line numbers of each side, in order. *)
Definition beforeTexts (ls : list DiffLine.t) : list string :=
  flat_map (fun l => optList (DiffLine.before l)) ls.

Definition afterTexts (ls : list DiffLine.t) : list string :=
  flat_map (fun l => optList (DiffLine.after l)) ls.

Definition oldNumbers (ls : list DiffLine.t) : list nat :=
  flat_map (fun l => optList (DiffLine.oldNumber l)) ls.

Definition newNumbers (ls : list DiffLine.t) : list nat :=
  flat_map (fun l => optList (DiffLine.newNumber l)) ls.

Definition hasType (t : DiffLineType) (l : DiffLine.t) : bool :=
  match t, DiffLine.type l with
  | unchanged, unchanged | added, added
  | removed, removed | modified, modified => true
  | _, _ => false
  end.

Definition countType (t : DiffLineType) (ls : list DiffLine.t) : nat :=
  List.length (filter (hasType t) ls).

(** The fields a line of each kind carries. *)
Definition wellShaped (l : DiffLine.t) : Prop :=
  match DiffLine.type l with
  | unchanged =>
      exists o n x,
        l = DiffLine.mk unchanged (Some o) (Some n) (Some x) (Some x)
  | added => exists n a, l = DiffLine.mk added None (Some n) None (Some a)
  | removed => exists o b, l = DiffLine.mk removed (Some o) None (Some b) None
  | modified =>
      exists o n b a,
        l = DiffLine.mk modified (Some o) (Some n) (Some b) (Some a)
  end.

(** The contract of a line differ on the old side ([side] is
    [Change.added]) or on the new side ([side] is [Change.removed]): the
    values of the changes that belong to the side. *)
Definition sideValues (side : Change.t -> bool) (changes : list Change.t)
  : list string :=
  map Change.value (filter (fun c => negb (side c)) changes).

(** Every value but the last is empty or ends with a line feed: the
    values are made of whole lines. *)
Fixpoint wholeLines (values : list string) : bool :=
  match values with
  | [] => true
  | v :: rest =>
      match rest with
      | [] => true
      | _ :: _ => ((v =? "")%string || endsWithLF v) && wholeLines rest
      end
  end.

(** No change is both an insertion and a deletion. *)
Definition exclusiveFlags (c : Change.t) : bool :=
  negb (Change.added c && Change.removed c).

Fixpoint hasLF (s : string) : bool :=
  match s with
  | EmptyString => false
  | String c rest => Ascii.eqb c JS.LF || hasLF rest
  end.

Fixpoint hasDot (s : string) : bool :=
  match s with
  | EmptyString => false
  | String c rest => Ascii.eqb c "."%char || hasDot rest
  end.

(** The number of control bytes of a sample. *)
Definition countControl (sample : list byte) : nat :=
  List.length (filter CONTROL_BYTES_has sample).

(** The threshold of [isProbablyText] on counts held in machine
    integers, and its check over a range of counts and lengths. *)
Definition ratioAgrees (count len : int) : bool :=
  Bool.eqb
    (PrimFloat.of_uint63 count / PrimFloat.of_uint63 len <? one_tenth)%float
    (10 * count <? len)%uint63.

Fixpoint ratioAgreesCounts (fuel : nat) (count len : int) : bool :=
  match fuel with
  | O => true
  | S f => ratioAgrees count len && ratioAgreesCounts f (count + 1)%uint63 len
  end.

Fixpoint ratioAgreesLens (fuel lenNat : nat) (len : int) : bool :=
  match fuel with
  | O => true
  | S f =>
      ratioAgreesCounts (S lenNat) 0%uint63 len
      && ratioAgreesLens f (S lenNat) (len + 1)%uint63
  end.

(** The values of a side, one after the other: the text of that side. *)
Definition joinValues (values : list string) : string :=
  fold_right append EmptyString values.

(** The counters of the loop agree with the lines emitted so far. *)
Definition countsAgree (st : Loop.state) : Prop :=
  Loop.added st = countType added (Loop.diff st)
  /\ Loop.removed st = countType removed (Loop.diff st)
  /\ Loop.modified st = countType modified (Loop.diff st).

(** Both sides are numbered from 1 without gap so far. *)
Definition numbered (st : Loop.state) : Prop :=
  1 <= Loop.oldLine st /\ 1 <= Loop.newLine st
  /\ oldNumbers (Loop.diff st) = seq 1 (Loop.oldLine st - 1)
  /\ newNumbers (Loop.diff st) = seq 1 (Loop.newLine st - 1).

(** The texts of both sides after the loop state [st]. *)
Definition sides (st : Loop.state) : list string * list string :=
  (beforeTexts (Loop.diff st), afterTexts (Loop.diff st)).

(** The lines of a side: those of its values, in order. *)
Definition sideLines (side : Change.t -> bool) (changes : list Change.t)
  : list string :=
  flat_map splitPreserve (sideValues side changes).

(** Stand-ins for the collaborators of the route, to run it on concrete
    uploads: a sniffer that recognises no signature, the decoding of
    ASCII bytes, and an injective digest. *)
Definition noSignature (buffer : list byte) : option FileTypeResult := None.

Definition asciiDecode (buffer : list byte) : string :=
  string_of_list_byte buffer.

Definition plainDigest (buffer : list byte) : string :=
  string_of_list_byte buffer.

(** A sniffer that recognises PNG images only: the eight bytes of the
    PNG signature followed by the header of the [IHDR] chunk. *)
Definition pngSniffer (buffer : list byte) : option FileTypeResult :=
  match buffer with
  | x89 :: x50 :: x4e :: x47 :: x0d :: x0a :: x1a :: x0a
    :: _ :: _ :: _ :: _ :: x49 :: x48 :: x44 :: x52 :: _ =>
      Some (mkFileTypeResult "png" "image/png")
  | _ => None
  end.

(** A complete PNG file: one transparent pixel (signature, [IHDR],
    [IDAT] and [IEND] chunks with their check sums). *)
Definition onePixelPng : list byte :=
  [ x89; x50; x4e; x47; x0d; x0a; x1a; x0a;
    x00; x00; x00; x0d; x49; x48; x44; x52;
    x00; x00; x00; x01; x00; x00; x00; x01; x08; x06; x00; x00; x00;
    x1f; x15; xc4; x89;
    x00; x00; x00; x0a; x49; x44; x41; x54;
    x78; x9c; x63; x00; x01; x00; x00; x05; x00; x01;
    x0d; x0a; x2d; xb4;
    x00; x00; x00; x00; x49; x45; x4e; x44; xae; x42; x60; x82 ].

(** The lines the loop emits for [changes] when the counters of old and
    new line numbers stand at [o] and [n]. *)
Definition emitted (changes : list Change.t) (o n : nat) : list DiffLine.t :=
  Loop.diff (scan changes (Loop.mk [] 0 0 0 o n)).

(** Two loop states with the same line counters, the first having the
    lines [p] before those of the second. *)
Definition framed (p : list DiffLine.t) (st st' : Loop.state) : Prop :=
  Loop.diff st = p ++ Loop.diff st'
  /\ Loop.oldLine st = Loop.oldLine st'
  /\ Loop.newLine st = Loop.newLine st'.

(** The two ways in which the classifier says text on hints alone. *)
Definition textByHints (mime extension : option string) : bool :=
  someStartsWith TEXT_MIME_HINTS (JS.toLowerCase (JS.nullish mime ""))
  || (negb
        (someStartsWith BINARY_MIME_HINTS
           (JS.toLowerCase (JS.nullish mime "")))
      && JS.includes TEXT_EXT_HINTS
           (JS.toLowerCase (JS.nullish extension ""))).

(** * Properties *)

(** ** The code on the examples of its test suite *)

Example isProbablyText_test_text :
  isProbablyText (list_byte_of_string "hello world") (Some "text/plain") None
  = true.
Proof. reflexivity. Qed.

Example isProbablyText_test_ts :
  isProbablyText (list_byte_of_string "const x = 1;")
    (Some "application/octet-stream") (Some "ts") = true.
Proof. reflexivity. Qed.

Example isProbablyText_test_binary :
  isProbablyText [x00; x78; x03; xff; x0a] (Some "application/octet-stream")
    None = false.
Proof. reflexivity. Qed.

Example normalizeNewlines_test :
  normalizeNewlines
    ("a" ++ String JS.CR (String JS.LF ("b" ++ String JS.CR "c")))%string
  = ("a" ++ String JS.LF ("b" ++ String JS.LF "c"))%string.
Proof. reflexivity. Qed.

Example computeTextDiff_test_added :
  DiffSummary.changePercent
    (summary
       (computeTextDiff LineDiff.diffLines (unlines ["hello"; "world"])
          (unlines ["hello"; "there"; "world"]))) = 33%Z.
Proof. vm_compute. reflexivity. Qed.

Example computeTextDiff_test_modified :
  computeTextDiff LineDiff.diffLines (unlines ["color"]) (unlines ["colour"])
  = mkTextDiff
      [DiffLine.mk modified (Some 1) (Some 1) (Some "color") (Some "colour")]
      (DiffSummary.mk false 1 0 0 1 100).
Proof. vm_compute. reflexivity. Qed.

Example computeTextDiff_test_cap :
  summary
    (computeTextDiff LineDiff.diffLines (unlines ["a"; "b"; "c"])
       (unlines ["x"; "y"; "z"; "w"]))
  = DiffSummary.mk false 4 1 0 3 100.
Proof. vm_compute. reflexivity. Qed.

Example computeTextDiff_test_empty :
  computeTextDiff LineDiff.diffLines "" ""
  = mkTextDiff [] (DiffSummary.mk true 0 0 0 0 0).
Proof. vm_compute. reflexivity. Qed.

(** ** Strings and samples *)

Lemma startsWith_inv (p s : string) :
  JS.startsWith s p = true -> exists r, s = (p ++ r)%string.
Proof.
  unfold JS.startsWith. revert s.
  induction p as [|c p IH]; intros s H.
  - exists s. reflexivity.
  - destruct s as [|d s]; simpl in H; [discriminate|].
    destruct (ascii_dec c d) as [->|]; [|discriminate].
    destruct (IH _ H) as [r ->]. exists r. reflexivity.
Qed.


Lemma toLowerCase_app (a b : string) :
  JS.toLowerCase (a ++ b)%string
  = (JS.toLowerCase a ++ JS.toLowerCase b)%string.
Proof.
  induction a as [|c a IH]; simpl; [reflexivity|].
  now rewrite IH.
Qed.

Lemma sample_firstn (buffer : list byte) :
  (if (MAX_SNIFF_BYTES <? List.length buffer)%nat
   then firstn MAX_SNIFF_BYTES buffer
   else buffer) = firstn MAX_SNIFF_BYTES buffer.
Proof.
  destruct (Nat.ltb_spec MAX_SNIFF_BYTES (List.length buffer)) as [_|Hle].
  - reflexivity.
  - symmetry. apply firstn_all2. exact Hle.
Qed.

(** [controlRatio] reads the sample only. *)
Lemma controlRatio_sample (buffer : list byte) :
  controlRatio buffer = controlRatio (firstn MAX_SNIFF_BYTES buffer).
Proof.
  unfold controlRatio.
  rewrite (sample_firstn buffer).
  rewrite (sample_firstn (firstn MAX_SNIFF_BYTES buffer)).
  rewrite firstn_firstn, Nat.min_id.
  reflexivity.
Qed.

Lemma controlScan_nul (sample : list byte) :
  In x00 sample -> forall n, controlScan sample n = inl 1%float.
Proof.
  induction sample as [|b rest IH]; intros Hin n; [contradiction|].
  simpl.
  destruct (N.eqb_spec (Byte.to_N b) 0) as [_|Hb]; [reflexivity|].
  apply IH.
  destruct Hin as [->|Hin]; [|exact Hin].
  exfalso. apply Hb. reflexivity.
Qed.

Lemma controlRatio_nul (buffer : list byte) :
  In x00 (firstn MAX_SNIFF_BYTES buffer) -> controlRatio buffer = 1%float.
Proof.
  intros Hin.
  unfold controlRatio. rewrite sample_firstn.
  destruct (firstn MAX_SNIFF_BYTES buffer) as [|b rest] eqn:E;
    [contradiction|].
  rewrite (controlScan_nul _ Hin). reflexivity.
Qed.

(** An extension that folds to an entry of the allow-list is not empty. *)
Lemma listed_truthy (extension : option string) :
  JS.includes TEXT_EXT_HINTS (JS.toLowerCase (JS.nullish extension "")) = true ->
  JS.truthy extension = true.
Proof.
  destruct extension as [[|c s]|]; simpl; intros H;
    try reflexivity; discriminate H.
Qed.

(** ** Classifier *)

(** C1, as stated, fails: a buffer with a NUL byte is classified as text
    when the declared type is a text type, and also when the NUL byte lies
    beyond the first [MAX_SNIFF_BYTES] bytes of an otherwise plain
    buffer. *)
Lemma nul_byte_classified_text :
  In x00 [x00]
  /\ isProbablyText [x00] (Some "text/plain") None = true
  /\ In x00 (repeat x61 MAX_SNIFF_BYTES ++ [x00])
  /\ isProbablyText (repeat x61 MAX_SNIFF_BYTES ++ [x00]) None None = true.
Proof.
  split; [left; reflexivity|].
  split; [reflexivity|].
  split; [apply in_or_app; right; left; reflexivity|].
  vm_compute. reflexivity.
Qed.

(** With a NUL byte in the sample the verdict rests on the hints alone. *)
Lemma nul_byte_hints_decide
  (buffer : list byte) (mime extension : option string) :
  In x00 (firstn MAX_SNIFF_BYTES buffer) ->
  isProbablyText buffer mime extension = textByHints mime extension.
Proof.
  intros Hnul. unfold isProbablyText, textByHints.
  rewrite (controlRatio_nul _ Hnul).
  destruct (someStartsWith TEXT_MIME_HINTS _); [reflexivity|].
  destruct (someStartsWith BINARY_MIME_HINTS _); [reflexivity|].
  destruct (JS.includes TEXT_EXT_HINTS _) eqn:Hext.
  - rewrite (listed_truthy _ Hext), andb_true_r. simpl.
    destruct (_ || _); reflexivity.
  - rewrite !andb_false_r. reflexivity.
Qed.

(** C1, amended: for a buffer with a NUL byte among its first
    [MAX_SNIFF_BYTES] bytes, the verdict is decided by the hints alone:
    it is text exactly when the media type starts with a text prefix, or
    starts with no binary prefix while the extension is on the text
    allow-list, and binary in every other case.  This holds of
    [isProbablyText] for any media type it is given, and of the
    classifier, where that media type is the one [sniffMime] settles
    on. *)
Theorem nul_byte_verdict
  (fileTypeFromBuffer : list byte -> option FileTypeResult)
  (buffer : list byte) (mime declaredMediaType extension : option string) :
  In x00 (firstn MAX_SNIFF_BYTES buffer) ->
  isProbablyText buffer mime extension = textByHints mime extension
  /\ isText (classify fileTypeFromBuffer buffer declaredMediaType extension)
     = textByHints
         (Some (sniffMime fileTypeFromBuffer buffer declaredMediaType
                  extension))
         extension.
Proof.
  intros Hnul. split; [now apply nul_byte_hints_decide|].
  unfold classify, classifyKind. cbn [isText].
  rewrite (nul_byte_hints_decide buffer _ extension Hnul).
  destruct (textByHints _ _); reflexivity.
Qed.

Lemma nul_byte_verdict_witness :
  isProbablyText [x78; x00; x0a] (Some "application/octet-stream") (Some "bin")
  = false
  /\ isProbablyText [x78; x00; x0a] (Some "image/png") (Some "txt") = false
  /\ isText
       (classify noSignature [x78; x00; x0a] (Some "application/x-data") None)
     = false.
Proof.
  split; [|split].
  - exact (proj1 (nul_byte_verdict noSignature [x78; x00; x0a]
                    (Some "application/octet-stream") None (Some "bin")
                    (or_intror (or_introl eq_refl)))).
  - exact (proj1 (nul_byte_verdict noSignature [x78; x00; x0a]
                    (Some "image/png") None (Some "txt")
                    (or_intror (or_introl eq_refl)))).
  - exact (proj2 (nul_byte_verdict noSignature [x78; x00; x0a]
                    None (Some "application/x-data") None
                    (or_intror (or_introl eq_refl)))).
Defined.


(** In [loadFile] the media type handed to [classifyKind] is the one
    [sniffMime] returns, so a recognised image signature decides the
    verdict even under a declared text type. *)
Remark classify_sniffed_image
  (fileTypeFromBuffer : list byte -> option FileTypeResult)
  (buffer : list byte) (declaredMediaType fileExtension : option string)
  (ext rest : string) :
  fileTypeFromBuffer buffer
  = Some (mkFileTypeResult ext ("image/" ++ rest)%string) ->
  classify fileTypeFromBuffer buffer declaredMediaType fileExtension
  = mkClassification false ("image/" ++ rest)%string.
Proof.
  intros H. unfold classify, sniffMime, classifyKind, isProbablyText.
  rewrite H. destruct rest; reflexivity.
Qed.




(** C10: two buffers that agree on their first [MAX_SNIFF_BYTES] bytes
    receive the same verdict under the same hints. *)
Theorem verdict_depends_on_sample
  (buffer1 buffer2 : list byte) (mime extension : option string) :
  firstn MAX_SNIFF_BYTES buffer1 = firstn MAX_SNIFF_BYTES buffer2 ->
  isProbablyText buffer1 mime extension
  = isProbablyText buffer2 mime extension.
Proof.
  intros H.
  unfold isProbablyText.
  rewrite (controlRatio_sample buffer1), (controlRatio_sample buffer2), H.
  reflexivity.
Qed.

Lemma verdict_depends_on_sample_witness :
  isProbablyText (repeat x61 MAX_SNIFF_BYTES ++ [x00]) None None
  = isProbablyText (repeat x61 MAX_SNIFF_BYTES ++ [x01; x02]) None None.
Proof.
  apply (verdict_depends_on_sample
           (repeat x61 MAX_SNIFF_BYTES ++ [x00])
           (repeat x61 MAX_SNIFF_BYTES ++ [x01; x02]) None None).
  vm_compute. reflexivity.
Defined.

(** C5, as stated, fails: with the declared type [application/foo], which
    is present, is no generic placeholder and matches neither prefix list,
    the extension [txt] decides the verdict against content sniffing. *)
Lemma extension_decides_for_specific_mime :
  someStartsWith TEXT_MIME_HINTS (JS.toLowerCase "application/foo") = false
  /\ someStartsWith BINARY_MIME_HINTS (JS.toLowerCase "application/foo") = false
  /\ (JS.toLowerCase "application/foo" =? "application/octet-stream")%string
     = false
  /\ (JS.toLowerCase "application/foo" =? "application/x-empty")%string = false
  /\ sniffVerdict [x00] = false
  /\ isProbablyText [x00] (Some "application/foo") (Some "txt") = true.
Proof. repeat split; reflexivity. Qed.

(** C5, amended: whenever the declared type matches neither the text
    prefixes nor the binary prefixes (be it absent, empty, a generic
    placeholder or a specific unlisted type), an extension on the text
    allow-list forces the text verdict; otherwise the verdict is that of
    content sniffing over the first [MAX_SNIFF_BYTES] bytes. *)
Theorem extension_then_sniffing
  (buffer : list byte) (mime extension : option string) :
  someStartsWith TEXT_MIME_HINTS (JS.toLowerCase (JS.nullish mime "")) = false ->
  someStartsWith BINARY_MIME_HINTS (JS.toLowerCase (JS.nullish mime "")) = false ->
  isProbablyText buffer mime extension
  = if JS.includes TEXT_EXT_HINTS (JS.toLowerCase (JS.nullish extension ""))
    then true
    else sniffVerdict (firstn MAX_SNIFF_BYTES buffer).
Proof.
  intros Htext Hbin.
  unfold isProbablyText, sniffVerdict.
  rewrite Htext, Hbin, <- controlRatio_sample.
  destruct (JS.includes TEXT_EXT_HINTS _) eqn:Hext.
  - rewrite (listed_truthy _ Hext), andb_true_r. simpl.
    destruct (_ || _); reflexivity.
  - rewrite !andb_false_r. reflexivity.
Qed.

Lemma extension_then_sniffing_witness :
  isProbablyText [x00; x01] (Some "application/x-custom") (Some "MD") = true
  /\ isProbablyText [x00; x01] (Some "application/x-custom") (Some "exe")
     = false.
Proof.
  split.
  - rewrite (extension_then_sniffing [x00; x01] (Some "application/x-custom")
               (Some "MD")); reflexivity.
  - rewrite (extension_then_sniffing [x00; x01] (Some "application/x-custom")
               (Some "exe")); reflexivity.
Defined.

(** C9: the media type returned by [sniffMime] is the sniffed type if a
    signature matched, else the declared type if there is one, else
    [text/plain] for an extension of the allow-list, else
    [application/octet-stream]; it is never empty. *)
Theorem sniffMime_priority
  (fileTypeFromBuffer : list byte -> option FileTypeResult)
  (buffer : list byte) (provided extension : option string) :
  sniffMime fileTypeFromBuffer buffer provided extension
  = specMediaType
      (present (option_map ft_mime (fileTypeFromBuffer buffer)))
      (present provided)
      (JS.includes TEXT_EXT_HINTS (JS.toLowerCase (JS.nullish extension "")))
  /\ sniffMime fileTypeFromBuffer buffer provided extension <> "".
Proof.
  unfold sniffMime, specMediaType, present, JS.truthy, JS.nullish.
  set (listed := JS.includes TEXT_EXT_HINTS _).
  destruct (option_map ft_mime (fileTypeFromBuffer buffer)) as [m|];
    [destruct (String.eqb_spec m "") as [->|Hm]|]; simpl;
    try (split; [reflexivity|assumption]);
    (destruct provided as [p|];
     [destruct (String.eqb_spec p "") as [->|Hp]|]; simpl;
     try (split; [reflexivity|assumption]);
     destruct listed; split; try reflexivity; discriminate).
Qed.

(** ** The loop of the reconciler *)

Lemma fold_left_seq_inv {A : Type} (step : A -> nat -> A) (S_ : nat -> A)
  (a k : nat) :
  (forall i, i < k -> step (S_ i) (a + i) = S_ (i + 1)) ->
  fold_left step (seq a k) (S_ 0) = S_ k.
Proof.
  induction k as [|k IH]; intros H; [reflexivity|].
  rewrite seq_S, fold_left_app. simpl.
  rewrite IH by (intros i Hi; apply H; lia).
  rewrite H by lia. now rewrite Nat.add_1_r.
Qed.

Lemma nth_error_in_range {A : Type} (l : list A) (i : nat) :
  i < List.length l -> exists x, nth_error l i = Some x.
Proof.
  intros H. destruct (nth_error l i) as [x|] eqn:E; [now exists x|].
  apply nth_error_None in E. lia.
Qed.

Lemma nth_error_out_of_range {A : Type} (l : list A) (i : nat) :
  List.length l <= i -> nth_error l i = None.
Proof. apply nth_error_None. Qed.

Lemma map_seq_snoc {A : Type} (f : nat -> A) (a i : nat) :
  map f (seq a (i + 1)) = map f (seq a i) ++ [f (a + i)].
Proof. now rewrite Nat.add_1_r, seq_S, map_app. Qed.

(** The pairing phase of a group: indices below both lengths. *)
Lemma group_pairs (dels ins : list string) (st : Loop.state) (k : nat) :
  k <= List.length dels -> k <= List.length ins ->
  fold_left (groupStep dels ins) (seq 0 k) st
  = Loop.mk
      (Loop.diff st
       ++ map (modifiedAt (Loop.oldLine st) (Loop.newLine st) dels ins)
            (seq 0 k))
      (Loop.added st) (Loop.removed st) (Loop.modified st + k)
      (Loop.oldLine st + k) (Loop.newLine st + k).
Proof.
  intros Hd Hi.
  set (S_ := fun i =>
    Loop.mk
      (Loop.diff st
       ++ map (modifiedAt (Loop.oldLine st) (Loop.newLine st) dels ins)
            (seq 0 i))
      (Loop.added st) (Loop.removed st) (Loop.modified st + i)
      (Loop.oldLine st + i) (Loop.newLine st + i)).
  assert (E0 : st = S_ 0).
  { unfold S_. destruct st. simpl. now rewrite app_nil_r, !Nat.add_0_r. }
  replace (fold_left (groupStep dels ins) (seq 0 k) st)
    with (fold_left (groupStep dels ins) (seq 0 k) (S_ 0))
    by (rewrite <- E0; reflexivity).
  apply (fold_left_seq_inv (groupStep dels ins) S_ 0 k). intros i Hik. simpl.
  destruct (nth_error_in_range dels i) as [b Hb]; [lia|].
  destruct (nth_error_in_range ins i) as [a Ha]; [lia|].
  unfold groupStep, S_, pushModified. rewrite Hb, Ha. simpl.
  rewrite map_seq_snoc, app_assoc. simpl.
  unfold modifiedAt at 3. rewrite Hb, Ha.
  f_equal; lia.
Qed.

(** The leftover phase when the deleted side is the longer one. *)
Lemma group_leftover_removed (dels ins : list string) (st : Loop.state)
  (o m k : nat) :
  List.length ins <= m -> m + k <= List.length dels ->
  Loop.oldLine st = o + m ->
  fold_left (groupStep dels ins) (seq m k) st
  = Loop.mk
      (Loop.diff st ++ map (removedAt o dels) (seq m k))
      (Loop.added st) (Loop.removed st + k) (Loop.modified st)
      (Loop.oldLine st + k) (Loop.newLine st).
Proof.
  intros Hi Hd Ho.
  set (S_ := fun i =>
    Loop.mk
      (Loop.diff st ++ map (removedAt o dels) (seq m i))
      (Loop.added st) (Loop.removed st + i) (Loop.modified st)
      (Loop.oldLine st + i) (Loop.newLine st)).
  assert (E0 : st = S_ 0).
  { unfold S_. destruct st. simpl. now rewrite app_nil_r, !Nat.add_0_r. }
  replace (fold_left (groupStep dels ins) (seq m k) st)
    with (fold_left (groupStep dels ins) (seq m k) (S_ 0))
    by (rewrite <- E0; reflexivity).
  apply (fold_left_seq_inv (groupStep dels ins) S_ m k). intros i Hik.
  destruct (nth_error_in_range dels (m + i)) as [b Hb]; [lia|].
  pose proof (nth_error_out_of_range ins (m + i) ltac:(lia)) as Ha.
  unfold groupStep, S_, pushRemoved. rewrite Hb, Ha. simpl.
  rewrite map_seq_snoc, app_assoc.
  unfold removedAt at 3. rewrite Hb, Ho.
  f_equal; try lia. now rewrite Nat.add_assoc.
Qed.

(** The leftover phase when the inserted side is the longer one. *)
Lemma group_leftover_added (dels ins : list string) (st : Loop.state)
  (n m k : nat) :
  List.length dels <= m -> m + k <= List.length ins ->
  Loop.newLine st = n + m ->
  fold_left (groupStep dels ins) (seq m k) st
  = Loop.mk
      (Loop.diff st ++ map (addedAt n ins) (seq m k))
      (Loop.added st + k) (Loop.removed st) (Loop.modified st)
      (Loop.oldLine st) (Loop.newLine st + k).
Proof.
  intros Hd Hi Hn.
  set (S_ := fun i =>
    Loop.mk
      (Loop.diff st ++ map (addedAt n ins) (seq m i))
      (Loop.added st + i) (Loop.removed st) (Loop.modified st)
      (Loop.oldLine st) (Loop.newLine st + i)).
  assert (E0 : st = S_ 0).
  { unfold S_. destruct st. simpl. now rewrite app_nil_r, !Nat.add_0_r. }
  replace (fold_left (groupStep dels ins) (seq m k) st)
    with (fold_left (groupStep dels ins) (seq m k) (S_ 0))
    by (rewrite <- E0; reflexivity).
  apply (fold_left_seq_inv (groupStep dels ins) S_ m k). intros i Hik.
  destruct (nth_error_in_range ins (m + i)) as [a Ha]; [lia|].
  pose proof (nth_error_out_of_range dels (m + i) ltac:(lia)) as Hb.
  unfold groupStep, S_, pushAdded. rewrite Hb, Ha. simpl.
  rewrite map_seq_snoc, app_assoc.
  unfold addedAt at 3. rewrite Ha, Hn.
  f_equal; try lia. now rewrite Nat.add_assoc.
Qed.

(** The whole modification group, in the words of the specification. *)
Lemma group_spec (dels ins : list string) (st : Loop.state) :
  group dels ins st
  = Loop.mk
      (Loop.diff st
       ++ groupLines (Loop.oldLine st) (Loop.newLine st) dels ins)
      (Loop.added st
       + (List.length ins - Nat.min (List.length dels) (List.length ins)))
      (Loop.removed st
       + (List.length dels - Nat.min (List.length dels) (List.length ins)))
      (Loop.modified st + Nat.min (List.length dels) (List.length ins))
      (Loop.oldLine st + List.length dels)
      (Loop.newLine st + List.length ins).
Proof.
  unfold group, groupLines.
  set (nd := List.length dels). set (ni := List.length ins).
  set (m := Nat.min nd ni).
  replace (Nat.max nd ni) with (m + (Nat.max nd ni - m)) by lia.
  rewrite seq_app, fold_left_app, Nat.add_0_l.
  rewrite group_pairs by (fold nd ni; lia).
  destruct (Nat.le_ge_cases nd ni) as [Hle|Hge].
  - rewrite (group_leftover_added dels ins _ (Loop.newLine st) m)
      by (fold nd ni; simpl; lia).
    simpl.
    replace (nd - m) with 0 by lia.
    replace (Nat.max nd ni - m) with (ni - m) by lia.
    simpl. rewrite <- app_assoc.
    f_equal; lia.
  - rewrite (group_leftover_removed dels ins _ (Loop.oldLine st) m)
      by (fold nd ni; simpl; lia).
    simpl.
    replace (ni - m) with 0 by lia.
    replace (Nat.max nd ni - m) with (nd - m) by lia.
    simpl. rewrite app_nil_r, <- app_assoc.
    f_equal; lia.
Qed.

Lemma fold_pushAdded (ls : list string) (st : Loop.state) :
  fold_left pushAdded ls st
  = Loop.mk
      (Loop.diff st
       ++ map (addedAt (Loop.newLine st) ls) (seq 0 (List.length ls)))
      (Loop.added st + List.length ls) (Loop.removed st) (Loop.modified st)
      (Loop.oldLine st) (Loop.newLine st + List.length ls).
Proof.
  induction ls as [|x ls IH] using rev_ind.
  - destruct st. simpl. now rewrite app_nil_r, !Nat.add_0_r.
  - rewrite fold_left_app, IH. simpl.
    rewrite length_app. simpl.
    rewrite map_seq_snoc, app_assoc. simpl.
    unfold pushAdded. simpl.
    unfold addedAt at 3.
    rewrite nth_error_app2, Nat.sub_diag by lia. simpl.
    rewrite (map_ext_in (addedAt (Loop.newLine st) (ls ++ [x]))
               (addedAt (Loop.newLine st) ls)).
    + f_equal; lia.
    + intros j Hj. apply in_seq in Hj. unfold addedAt.
      now rewrite nth_error_app1 by lia.
Qed.

Lemma fold_pushRemoved (ls : list string) (st : Loop.state) :
  fold_left pushRemoved ls st
  = Loop.mk
      (Loop.diff st
       ++ map (removedAt (Loop.oldLine st) ls) (seq 0 (List.length ls)))
      (Loop.added st) (Loop.removed st + List.length ls) (Loop.modified st)
      (Loop.oldLine st + List.length ls) (Loop.newLine st).
Proof.
  induction ls as [|x ls IH] using rev_ind.
  - destruct st. simpl. now rewrite app_nil_r, !Nat.add_0_r.
  - rewrite fold_left_app, IH. simpl.
    rewrite length_app. simpl.
    rewrite map_seq_snoc, app_assoc. simpl.
    unfold pushRemoved. simpl.
    unfold removedAt at 3.
    rewrite nth_error_app2, Nat.sub_diag by lia. simpl.
    rewrite (map_ext_in (removedAt (Loop.oldLine st) (ls ++ [x]))
               (removedAt (Loop.oldLine st) ls)).
    + f_equal; lia.
    + intros j Hj. apply in_seq in Hj. unfold removedAt.
      now rewrite nth_error_app1 by lia.
Qed.

(** Induction along the loop, which consumes one change or two. *)
Lemma scan_induction (P : list Change.t -> Prop) :
  P [] ->
  (forall c, P [c]) ->
  (forall x y l, P l -> P (y :: l) -> P (x :: y :: l)) ->
  forall l, P l.
Proof.
  intros H0 H1 H2 l.
  assert (H : P l /\ forall x, P (x :: l)).
  { induction l as [|y l [IHl IHyl]].
    - split; [exact H0 | exact H1].
    - split; [apply IHyl | intros x; apply H2; [exact IHl | apply IHyl]]. }
  exact (proj1 H).
Qed.

(** One turn of the loop when at least two changes remain. *)
Lemma scan_two (x y : Change.t) (l : list Change.t) (st : Loop.state) :
  scan (x :: y :: l) st
  = if Change.removed x && Change.added y
    then scan l
           (group (splitPreserve (Change.value x))
              (splitPreserve (Change.value y)) st)
    else scan (y :: l) (single x st).
Proof. reflexivity. Qed.

Lemma scan_group (d i : Change.t) (rest : list Change.t) (st : Loop.state) :
  Change.removed d = true -> Change.added i = true ->
  scan (d :: i :: rest) st
  = scan rest
      (group (splitPreserve (Change.value d)) (splitPreserve (Change.value i))
         st).
Proof. intros Hd Hi. simpl. now rewrite Hd, Hi. Qed.

Lemma scan_single (c : Change.t) (rest : list Change.t) (st : Loop.state) :
  Change.removed c && startsWithInserted rest = false ->
  scan (c :: rest) st = scan rest (single c st).
Proof.
  intros H. destruct rest as [|next rest']; [reflexivity|].
  simpl in *. now rewrite H.
Qed.

(** The loop can be cut between two changes that do not form a group. *)
Lemma scan_app (rest : list Change.t) (pre : list Change.t) :
  forall st,
    endsWithDeleted pre && startsWithInserted rest = false ->
    scan (pre ++ rest) st = scan rest (scan pre st).
Proof.
  induction pre as [|c|x y l IHl IHyl] using scan_induction; intros st H.
  - reflexivity.
  - change ([c] ++ rest) with (c :: rest).
    rewrite scan_single by exact H. reflexivity.
  - change ((x :: y :: l) ++ rest) with (x :: y :: l ++ rest).
    rewrite !scan_two.
    change (y :: l ++ rest) with ((y :: l) ++ rest).
    destruct (Change.removed x && Change.added y).
    + apply IHl. destruct l as [|z l']; [reflexivity | exact H].
    + apply IHyl. exact H.
Qed.

(** The lines of the result are those of the loop run on the changes. *)
Lemma lines_computeTextDiff
  (diffLines : string -> string -> list Change.t)
  (original comparison : string) :
  lines (computeTextDiff diffLines original comparison)
  = Loop.diff
      (scan (diffLines (normalizeNewlines original)
               (normalizeNewlines comparison)) Loop.init).
Proof. reflexivity. Qed.

Lemma fold_left_framed {A : Type} (p : list DiffLine.t)
  (f : Loop.state -> A -> Loop.state) (l : list A) :
  (forall st st' x, framed p st st' -> framed p (f st x) (f st' x)) ->
  forall st st', framed p st st' ->
                 framed p (fold_left f l st) (fold_left f l st').
Proof.
  intros Hf. induction l as [|x l IH]; intros st st' H; simpl; [exact H|].
  apply IH, Hf, H.
Qed.

Lemma push_framed (p : list DiffLine.t) (st st' : Loop.state) :
  framed p st st' ->
  (forall b a, framed p (pushModified st b a) (pushModified st' b a))
  /\ (forall b, framed p (pushRemoved st b) (pushRemoved st' b))
  /\ (forall a, framed p (pushAdded st a) (pushAdded st' a))
  /\ (forall l, framed p (pushUnchanged st l) (pushUnchanged st' l)).
Proof.
  intros (Hd & Ho & Hn).
  repeat split; simpl; rewrite ?Hd, ?Ho, ?Hn, <- ?app_assoc; reflexivity.
Qed.

(** The lines emitted before do not influence the loop: it appends the
    same lines, whatever stands before them. *)
Lemma scan_framed (p : list DiffLine.t) (changes : list Change.t) :
  forall st st', framed p st st' ->
                 framed p (scan changes st) (scan changes st').
Proof.
  assert (Hsingle : forall c st st',
             framed p st st' -> framed p (single c st) (single c st')).
  { intros c st st' H. unfold single.
    destruct (Change.added c); [|destruct (Change.removed c)];
      apply fold_left_framed; try exact H;
      intros s s' x Hs; now apply (push_framed p s s' Hs). }
  assert (Hgroup : forall dels ins st st',
             framed p st st' ->
             framed p (group dels ins st) (group dels ins st')).
  { intros dels ins st st' H. unfold group.
    apply fold_left_framed; [|exact H].
    intros s s' j Hs. unfold groupStep.
    destruct (nth_error dels j), (nth_error ins j);
      try exact Hs; now apply (push_framed p s s' Hs). }
  induction changes as [|c|x y l IHl IHyl] using scan_induction;
    intros st st' H.
  - exact H.
  - apply Hsingle, H.
  - rewrite !scan_two.
    destruct (_ && _); [apply IHl, Hgroup | apply IHyl, Hsingle]; exact H.
Qed.

(** The output of the loop: the lines it had, then the lines it emits
    for the changes from the line numbers it had reached. *)
Lemma scan_emitted (changes : list Change.t) (st : Loop.state) :
  Loop.diff (scan changes st)
  = Loop.diff st ++ emitted changes (Loop.oldLine st) (Loop.newLine st).
Proof.
  unfold emitted.
  apply (scan_framed (Loop.diff st) changes st
           (Loop.mk [] 0 0 0 (Loop.oldLine st) (Loop.newLine st))).
  repeat split. simpl. now rewrite app_nil_r.
Qed.

(** C2: in the output of the reconciler, the lines of a deleted run
    immediately followed by an inserted run are those of [groupLines]:
    the [j]-th deleted line paired with the [j]-th inserted line as a
    [modified] line for [j] below the shorter length, then the leftover
    deleted lines as [removed] and the leftover inserted lines as
    [added]; a standalone inserted run gives its [added] lines and
    nothing else, a standalone deleted run its [removed] lines and
    nothing else.  In each case the output is exactly the lines of the
    changes before the run, these lines, and the lines of the changes
    after the run, numbered onward. *)
Theorem reconciler_grouping
  (diffLines : string -> string -> list Change.t)
  (original comparison : string) (pre post : list Change.t) :
  let changes :=
    diffLines (normalizeNewlines original) (normalizeNewlines comparison) in
  let out := lines (computeTextDiff diffLines original comparison) in
  let o := Loop.oldLine (scan pre Loop.init) in
  let n := Loop.newLine (scan pre Loop.init) in
  (forall d i,
      changes = pre ++ d :: i :: post ->
      Change.removed d = true -> Change.added d = false ->
      Change.added i = true ->
      let dels := splitPreserve (Change.value d) in
      let ins := splitPreserve (Change.value i) in
      out = emitted pre 1 1
            ++ groupLines o n dels ins
            ++ emitted post (o + List.length dels) (n + List.length ins))
  /\ (forall c,
         changes = pre ++ c :: post ->
         Change.added c = true -> Change.removed c = false ->
         endsWithDeleted pre = false ->
         let ls := splitPreserve (Change.value c) in
         out = emitted pre 1 1
               ++ map (addedAt n ls) (seq 0 (List.length ls))
               ++ emitted post o (n + List.length ls))
  /\ (forall c,
         changes = pre ++ c :: post ->
         Change.removed c = true -> Change.added c = false ->
         startsWithInserted post = false ->
         let ls := splitPreserve (Change.value c) in
         out = emitted pre 1 1
               ++ map (removedAt o ls) (seq 0 (List.length ls))
               ++ emitted post (o + List.length ls) n).
Proof.
  intros changes out o n. subst out. rewrite lines_computeTextDiff.
  fold changes.
  change (emitted pre 1 1) with (Loop.diff (scan pre Loop.init)).
  set (st := scan pre Loop.init) in *.
  repeat split.
  - intros d i E Hd Hd' Hi dels ins. rewrite E.
    rewrite scan_app by (simpl; rewrite Hd'; apply andb_false_r).
    fold st. rewrite scan_group by assumption.
    rewrite scan_emitted, group_spec. simpl.
    now rewrite <- app_assoc.
  - intros c E Ha Hr Hpre ls. rewrite E.
    rewrite scan_app by (rewrite Hpre; reflexivity).
    fold st. rewrite scan_single by (rewrite Hr; reflexivity).
    rewrite scan_emitted. unfold single. rewrite Ha, fold_pushAdded.
    simpl. now rewrite <- app_assoc.
  - intros c E Hr Ha Hpost ls. rewrite E.
    rewrite scan_app by (simpl; rewrite Ha; apply andb_false_r).
    fold st. rewrite scan_single by (rewrite Hpost; apply andb_false_r).
    rewrite scan_emitted. unfold single. rewrite Ha, Hr, fold_pushRemoved.
    simpl. now rewrite <- app_assoc.
Qed.

Lemma reconciler_grouping_witness :
  lines (computeTextDiff LineDiff.diffLines
           (unlines ["a"; "b"; "c"; "k"]) (unlines ["a"; "x"; "y"; "z"; "k"]))
  = [DiffLine.mk unchanged (Some 1) (Some 1) (Some "a") (Some "a");
     DiffLine.mk modified (Some 2) (Some 2) (Some "b") (Some "x");
     DiffLine.mk modified (Some 3) (Some 3) (Some "c") (Some "y");
     DiffLine.mk added None (Some 4) None (Some "z");
     DiffLine.mk unchanged (Some 4) (Some 5) (Some "k") (Some "k")]
  /\ lines (computeTextDiff LineDiff.diffLines
              (unlines ["hello"; "world"])
              (unlines ["hello"; "there"; "world"]))
     = [DiffLine.mk unchanged (Some 1) (Some 1) (Some "hello") (Some "hello");
        DiffLine.mk added None (Some 2) None (Some "there");
        DiffLine.mk unchanged (Some 2) (Some 3) (Some "world") (Some "world")]
  /\ lines (computeTextDiff LineDiff.diffLines
              (unlines ["hello"; "there"; "world"])
              (unlines ["hello"; "world"]))
     = [DiffLine.mk unchanged (Some 1) (Some 1) (Some "hello") (Some "hello");
        DiffLine.mk removed (Some 2) None (Some "there") None;
        DiffLine.mk unchanged (Some 3) (Some 2) (Some "world") (Some "world")].
Proof.
  split; [|split].
  - exact (proj1
             (reconciler_grouping LineDiff.diffLines
                (unlines ["a"; "b"; "c"; "k"])
                (unlines ["a"; "x"; "y"; "z"; "k"])
                [Change.mk (unlines ["a"]) false false]
                [Change.mk (unlines ["k"]) false false])
             (Change.mk (unlines ["b"; "c"]) false true)
             (Change.mk (unlines ["x"; "y"; "z"]) true false)
             eq_refl eq_refl eq_refl eq_refl).
  - exact (proj1 (proj2
             (reconciler_grouping LineDiff.diffLines
                (unlines ["hello"; "world"])
                (unlines ["hello"; "there"; "world"])
                [Change.mk (unlines ["hello"]) false false]
                [Change.mk (unlines ["world"]) false false]))
             (Change.mk (unlines ["there"]) true false)
             eq_refl eq_refl eq_refl eq_refl).
  - exact (proj2 (proj2
             (reconciler_grouping LineDiff.diffLines
                (unlines ["hello"; "there"; "world"])
                (unlines ["hello"; "world"])
                [Change.mk (unlines ["hello"]) false false]
                [Change.mk (unlines ["world"]) false false]))
             (Change.mk (unlines ["there"]) false true)
             eq_refl eq_refl eq_refl eq_refl).
Defined.

(** ** Summary *)

(** No change, no percentage: [0 / t * 100] rounds to [0]. *)
Lemma percent_zero (totalLines : nat) : percent 0 totalLines = 0%Z.
Proof.
  unfold percent, JS.Math_round.
  rewrite FloatAxioms.mul_spec, FloatAxioms.div_spec.
  change (Prim2SF (JS.toNumber 0)) with (S754_zero false).
  destruct (Prim2SF (JS.toNumber totalLines)) as [s|s| |s m e];
    vm_compute; reflexivity.
Qed.

Lemma percent_range (changesCount totalLines : nat) :
  (0 <= percent changesCount totalLines <= 100)%Z.
Proof. unfold percent. lia. Qed.

(** C3: the code misses the rounded percentage at a text of forty lines
    compared with its first seventeen.  23 lines out of 40 are removed
    and [round(100 * 23 / 40)] is [58] (also when computed in doubles as
    [Math.round(100 * 23 / 40)]), but the code, which divides first,
    returns [57]: the double [(23 / 40) * 100] is [57.49999999999999]. *)
Lemma changePercent_23_of_40 :
  let r :=
    summary
      (computeTextDiff LineDiff.diffLines (unlines fortyLines)
         (unlines (firstn 17 fortyLines))) in
  DiffSummary.totalLines r = 40
  /\ DiffSummary.added r = 0
  /\ DiffSummary.removed r = 23
  /\ DiffSummary.modified r = 0
  /\ exactPercent 23 40 = 58%Z
  /\ JS.Math_round (100 * JS.toNumber 23 / JS.toNumber 40)%float = 58%Z
  /\ DiffSummary.changePercent r = 57%Z.
Proof. vm_compute. repeat split; reflexivity. Qed.

(** The other parts of the summary, for every pair of texts and every
    line differ: [totalLines] is the larger of the two line counts,
    [identical] holds exactly when [added], [removed] and [modified] are
    all zero, [changePercent] is [0] when [totalLines] is [0], and it
    lies in [0, 100]. *)
Lemma summary_of_reconciliation
  (diffLines : string -> string -> list Change.t)
  (original comparison : string) :
  let r := summary (computeTextDiff diffLines original comparison) in
  let changesCount :=
    DiffSummary.added r + DiffSummary.removed r + DiffSummary.modified r in
  DiffSummary.totalLines r
  = Nat.max (List.length (splitPreserve (normalizeNewlines original)))
      (List.length (splitPreserve (normalizeNewlines comparison)))
  /\ DiffSummary.identical r
     = ((DiffSummary.added r =? 0) && (DiffSummary.removed r =? 0)
        && (DiffSummary.modified r =? 0))%nat
  /\ DiffSummary.changePercent r
     = (if (DiffSummary.totalLines r =? 0)%nat then 0%Z
        else percent changesCount (DiffSummary.totalLines r))
  /\ (0 <= DiffSummary.changePercent r <= 100)%Z.
Proof.
  simpl.
  split; [reflexivity|].
  split.
  { destruct (Loop.added _), (Loop.removed _), (Loop.modified _);
      simpl; try reflexivity; now rewrite ?Nat.add_succ_r. }
  split; [reflexivity|].
  destruct (Nat.max _ _ =? 0)%nat; [lia | apply percent_range].
Qed.

(** ** Identical inputs *)

Lemma pushUnchanged_onlyUnchanged (st : Loop.state) (line : string) :
  onlyUnchanged st -> onlyUnchanged (pushUnchanged st line).
Proof.
  intros (Ha & Hr & Hm & Hl). unfold onlyUnchanged, pushUnchanged. simpl.
  repeat split; try assumption.
  apply Forall_app. split; [assumption|].
  constructor; [reflexivity | constructor].
Qed.

Lemma fold_pushUnchanged_onlyUnchanged (ls : list string) :
  forall st, onlyUnchanged st -> onlyUnchanged (fold_left pushUnchanged ls st).
Proof.
  induction ls as [|l ls IH]; intros st H; simpl; [exact H|].
  apply IH, pushUnchanged_onlyUnchanged, H.
Qed.

Lemma single_onlyUnchanged (c : Change.t) (st : Loop.state) :
  isEqualRun c -> onlyUnchanged st -> onlyUnchanged (single c st).
Proof.
  intros [Ha Hr] H. unfold single. rewrite Ha, Hr.
  apply fold_pushUnchanged_onlyUnchanged, H.
Qed.

Lemma scan_onlyUnchanged (changes : list Change.t) :
  Forall isEqualRun changes ->
  forall st, onlyUnchanged st -> onlyUnchanged (scan changes st).
Proof.
  induction changes as [|c|x y l IHl IHyl] using scan_induction;
    intros Hall st H.
  - exact H.
  - apply single_onlyUnchanged; [exact (Forall_inv Hall) | exact H].
  - pose proof (Forall_inv Hall) as Hx.
    pose proof (Forall_inv_tail Hall) as Hyl.
    rewrite scan_single by (destruct Hx as [_ ->]; reflexivity).
    apply IHyl; [exact Hyl|].
    apply single_onlyUnchanged; assumption.
Qed.

Lemma init_onlyUnchanged : onlyUnchanged Loop.init.
Proof. repeat split; constructor. Qed.

(** The reference differ reports equal runs only between a text and
    itself. *)
Lemma script_refl (toks : list string) :
  LineDiff.script toks toks = map LineDiff.Keep toks.
Proof.
  induction toks as [|x toks IH]; [reflexivity|].
  simpl. rewrite String.eqb_refl. now rewrite IH.
Qed.

Lemma runs_keep (toks : list string) :
  Forall isEqualRun (LineDiff.runs (map LineDiff.Keep toks)).
Proof.
  induction toks as [|x toks IH]; simpl; [constructor|].
  destruct (LineDiff.runs (map LineDiff.Keep toks)) as [|r rs].
  - constructor; [split; reflexivity | constructor].
  - destruct (LineDiff.sameKind _ r).
    + constructor; [split; reflexivity | exact (Forall_inv_tail IH)].
    + constructor; [split; reflexivity | exact IH].
Qed.

Lemma reference_diffLines_refl (t : string) :
  Forall isEqualRun (LineDiff.diffLines t t).
Proof. unfold LineDiff.diffLines. rewrite script_refl. apply runs_keep. Qed.

(** C6: reconciling a text against itself gives [identical = true],
    [changePercent = 0] and [unchanged] lines only, the line differ
    reporting no insertion and no deletion between the two equal
    normalized texts. *)
Theorem identical_inputs_unchanged
  (diffLines : string -> string -> list Change.t) (s : string) :
  Forall isEqualRun
    (diffLines (normalizeNewlines s) (normalizeNewlines s)) ->
  let r := computeTextDiff diffLines s s in
  DiffSummary.identical (summary r) = true
  /\ DiffSummary.changePercent (summary r) = 0%Z
  /\ Forall (fun l => DiffLine.type l = unchanged) (lines r).
Proof.
  intros Hall.
  destruct (scan_onlyUnchanged _ Hall Loop.init init_onlyUnchanged)
    as (Ha & Hr & Hm & Hl).
  simpl. rewrite Ha, Hr, Hm. simpl.
  split; [reflexivity|].
  split; [|exact Hl].
  destruct (Nat.max _ _ =? 0)%nat; [reflexivity | apply percent_zero].
Qed.

Lemma identical_inputs_unchanged_witness :
  let r :=
    computeTextDiff LineDiff.diffLines
      (unlines ["hello"; "world"]) (unlines ["hello"; "world"]) in
  DiffSummary.identical (summary r) = true
  /\ DiffSummary.changePercent (summary r) = 0%Z
  /\ Forall (fun l => DiffLine.type l = unchanged) (lines r).
Proof.
  apply (identical_inputs_unchanged LineDiff.diffLines
           (unlines ["hello"; "world"])).
  vm_compute. repeat constructor.
Defined.

(** ** Newlines *)

Lemma replaceCR_noCR (s : string) : hasCR (JS.replaceCR s) = false.
Proof.
  induction s as [|c s IH]; [reflexivity|].
  simpl. rewrite IH.
  destruct (Ascii.eqb_spec c JS.CR) as [_|Hc]; [reflexivity|].
  now apply Ascii.eqb_neq in Hc as ->.
Qed.

Lemma noCR_replaceCR (s : string) : hasCR s = false -> JS.replaceCR s = s.
Proof.
  induction s as [|c s IH]; [reflexivity|].
  simpl. intros H. apply orb_false_iff in H as [Hc Hs].
  now rewrite Hc, IH.
Qed.

Lemma noCR_replaceCRLF (s : string) : hasCR s = false -> JS.replaceCRLF s = s.
Proof.
  induction s as [|c s IH]; [reflexivity|].
  simpl. intros H. apply orb_false_iff in H as [Hc Hs].
  now rewrite Hc, IH.
Qed.

Lemma normalized_noCR (s : string) : normalizeNewlines s = s -> hasCR s = false.
Proof.
  intros H. rewrite <- H. apply replaceCR_noCR.
Qed.

Lemma noCR_normalized (s : string) : hasCR s = false -> normalizeNewlines s = s.
Proof.
  intros H. unfold normalizeNewlines.
  now rewrite (noCR_replaceCRLF s H), (noCR_replaceCR s H).
Qed.

Lemma hasCR_app_LF (s : string) :
  hasCR (s ++ String JS.LF EmptyString)%string = hasCR s.
Proof.
  induction s as [|c s IH]; [reflexivity|].
  simpl. now rewrite IH.
Qed.

Lemma split_not_nil (s : string) : JS.split s <> [].
Proof.
  destruct s as [|c s]; simpl; [discriminate|].
  destruct (Ascii.eqb c JS.LF); [discriminate|].
  destruct (JS.split s); discriminate.
Qed.

Lemma split_app_LF (s : string) :
  JS.split (s ++ String JS.LF EmptyString)%string
  = JS.split s ++ [EmptyString].
Proof.
  induction s as [|c s IH]; [reflexivity|].
  simpl. rewrite IH.
  destruct (Ascii.eqb c JS.LF); [reflexivity|].
  pose proof (split_not_nil s) as Hne.
  destruct (JS.split s) as [|p ps]; [contradiction | reflexivity].
Qed.

Lemma last_cons_cons {A : Type} (x : A) (l : list A) (d : A) :
  l <> [] -> last (x :: l) d = last l d.
Proof. destruct l; [contradiction | reflexivity]. Qed.

Lemma last_split_empty (s : string) (d : string) :
  last (JS.split s) d = EmptyString -> s = EmptyString \/ endsWithLF s = true.
Proof.
  induction s as [|c s IH]; intros H; [now left|]. right.
  simpl in H.
  destruct (Ascii.eqb c JS.LF) eqn:Hc.
  - rewrite last_cons_cons in H by apply split_not_nil.
    destruct (IH H) as [->|He]; simpl; [exact Hc|].
    destruct s; [discriminate He | exact He].
  - destruct (JS.split s) as [|p ps] eqn:Hs; [discriminate H|].
    destruct ps as [|q ps']; [discriminate H|].
    assert (Hl : last (p :: q :: ps') d = EmptyString) by exact H.
    destruct (IH Hl) as [->|He]; [discriminate Hs|].
    simpl. destruct s; [discriminate He | exact He].
Qed.

(** A final line feed terminates the last line; it adds no line. *)
Lemma splitPreserve_app_LF (s : string) :
  splitPreserve (s ++ String JS.LF EmptyString)%string = JS.split s.
Proof.
  unfold splitPreserve.
  replace ((s ++ String JS.LF EmptyString)%string =? "")%string with false
    by (destruct s; reflexivity).
  rewrite split_app_LF, last_last. apply removelast_last.
Qed.

Lemma splitPreserve_unterminated (s : string) :
  s <> EmptyString -> endsWithLF s = false -> splitPreserve s = JS.split s.
Proof.
  intros Hne He. unfold splitPreserve.
  destruct (String.eqb_spec s "") as [->|_]; [contradiction|].
  destruct (last (JS.split s) "x") eqn:Hl; [|reflexivity].
  destruct (last_split_empty s "x" Hl) as [->|H]; [contradiction|].
  congruence.
Qed.

(** C4, as stated, fails.  The empty text has no line and the text made
    of one line feed has one; and for the text [a], the reference differ,
    like [diffLines], compares the token [a] with the token [a] followed
    by a line feed, so that the only line is reported as [modified], in
    either order. *)
Lemma final_newline_counterexample :
  List.length (splitPreserve (normalizeNewlines "")) = 0
  /\ List.length
       (splitPreserve (normalizeNewlines ("" ++ String JS.LF ""))) = 1
  /\ computeTextDiff LineDiff.diffLines "a" ("a" ++ String JS.LF "")
     = mkTextDiff
         [DiffLine.mk modified (Some 1) (Some 1) (Some "a") (Some "a")]
         (DiffSummary.mk false 1 0 0 1 100)
  /\ computeTextDiff LineDiff.diffLines ("a" ++ String JS.LF "") "a"
     = mkTextDiff
         [DiffLine.mk modified (Some 1) (Some 1) (Some "a") (Some "a")]
         (DiffSummary.mk false 1 0 0 1 100).
Proof. vm_compute. repeat split; reflexivity. Qed.

(** C4, amended: a trailing empty line produced by a final newline is
    not counted as a real line: for every non-empty normalized text [s]
    not ending in a line feed, [s] and [s] followed by a line feed split
    into the same lines, and reconciling them, in either order and with
    any line differ, reports that common line count as [totalLines]. *)
Theorem final_newline_same_line_count
  (diffLines : string -> string -> list Change.t) (s : string) :
  normalizeNewlines s = s ->
  s <> EmptyString ->
  endsWithLF s = false ->
  let s' := (s ++ String JS.LF EmptyString)%string in
  splitPreserve s' = splitPreserve s
  /\ DiffSummary.totalLines (summary (computeTextDiff diffLines s s'))
     = List.length (splitPreserve s)
  /\ DiffSummary.totalLines (summary (computeTextDiff diffLines s' s))
     = List.length (splitPreserve s).
Proof.
  intros Hn Hne He s'.
  assert (Hs' : splitPreserve s' = splitPreserve s).
  { unfold s'. rewrite splitPreserve_app_LF.
    symmetry. now apply splitPreserve_unterminated. }
  assert (Hn' : normalizeNewlines s' = s').
  { apply noCR_normalized. unfold s'. rewrite hasCR_app_LF.
    now apply normalized_noCR. }
  split; [exact Hs'|].
  simpl. rewrite Hn, Hn', Hs'. split; apply Nat.max_id.
Qed.

Lemma final_newline_same_line_count_witness :
  splitPreserve ("a" ++ String JS.LF "b" ++ String JS.LF "")%string
  = splitPreserve ("a" ++ String JS.LF "b")%string
  /\ DiffSummary.totalLines
       (summary
          (computeTextDiff LineDiff.diffLines
             ("a" ++ String JS.LF "b")%string
             ("a" ++ String JS.LF "b" ++ String JS.LF "")%string)) = 2
  /\ DiffSummary.totalLines
       (summary
          (computeTextDiff LineDiff.diffLines
             ("a" ++ String JS.LF "b" ++ String JS.LF "")%string
             ("a" ++ String JS.LF "b")%string)) = 2.
Proof.
  apply (final_newline_same_line_count LineDiff.diffLines
           ("a" ++ String JS.LF "b")%string).
  - reflexivity.
  - discriminate.
  - reflexivity.
Defined.

Lemma hasCRLF_tail (c : ascii) (s : string) :
  hasCRLF (String c s) = false -> hasCRLF s = false.
Proof.
  destruct s as [|d s']; [reflexivity|].
  intros H. change (hasCRLF (String c (String d s')))
    with ((Ascii.eqb c JS.CR && Ascii.eqb d JS.LF) || hasCRLF (String d s'))
    in H.
  now apply orb_false_iff in H as [_ H].
Qed.

(** Without a carriage return before a line feed, the first pass of
    [normalizeNewlines] undoes [crlf] and leaves the text itself alone. *)
Lemma replaceCRLF_crlf (s : string) :
  hasCRLF s = false -> JS.replaceCRLF (crlf s) = s.
Proof.
  induction s as [|c s IH]; intros H; [reflexivity|].
  pose proof (IH (hasCRLF_tail c s H)) as IHs.
  simpl crlf.
  destruct (Ascii.eqb_spec c JS.LF) as [->|Hlf].
  - simpl. now rewrite IHs.
  - destruct (Ascii.eqb_spec c JS.CR) as [->|Hcr].
    + destruct s as [|d s'].
      * reflexivity.
      * change (hasCRLF (String JS.CR (String d s')))
          with ((Ascii.eqb JS.CR JS.CR && Ascii.eqb d JS.LF)
                || hasCRLF (String d s')) in H.
        apply orb_false_iff in H as [Hd _]. simpl in Hd.
        simpl crlf in *. rewrite Hd in *.
        simpl. rewrite Hd. simpl in IHs. now rewrite IHs.
    + apply Ascii.eqb_neq in Hcr.
      simpl. rewrite Hcr. now rewrite IHs.
Qed.

Lemma replaceCRLF_id (s : string) :
  hasCRLF s = false -> JS.replaceCRLF s = s.
Proof.
  induction s as [|c s IH]; intros H; [reflexivity|].
  pose proof (IH (hasCRLF_tail c s H)) as IHs.
  destruct s as [|d s'].
  - simpl. destruct (Ascii.eqb c JS.CR); reflexivity.
  - change (hasCRLF (String c (String d s')))
      with ((Ascii.eqb c JS.CR && Ascii.eqb d JS.LF)
            || hasCRLF (String d s')) in H.
    apply orb_false_iff in H as [Hcd _].
    change (JS.replaceCRLF (String c (String d s')))
      with (if Ascii.eqb c JS.CR
            then if Ascii.eqb d JS.LF
                 then String JS.LF (JS.replaceCRLF s')
                 else String c (JS.replaceCRLF (String d s'))
            else String c (JS.replaceCRLF (String d s'))).
    rewrite IHs.
    destruct (Ascii.eqb c JS.CR); [|reflexivity].
    simpl in Hcd. now rewrite Hcd.
Qed.

Lemma normalizeNewlines_crlf (s : string) :
  hasCRLF s = false -> normalizeNewlines (crlf s) = normalizeNewlines s.
Proof.
  intros H. unfold normalizeNewlines.
  now rewrite (replaceCRLF_crlf s H), (replaceCRLF_id s H).
Qed.

(** The result depends on the inputs through their normal forms only. *)
Lemma computeTextDiff_normalized
  (diffLines : string -> string -> list Change.t) (a a' b b' : string) :
  normalizeNewlines a = normalizeNewlines a' ->
  normalizeNewlines b = normalizeNewlines b' ->
  computeTextDiff diffLines a b = computeTextDiff diffLines a' b'.
Proof. intros Ha Hb. unfold computeTextDiff. now rewrite Ha, Hb. Qed.

(** C7, as stated, fails on a text that already ends its lines with
    carriage return, line feed: replacing every line feed then leaves a
    lone carriage return, which [normalizeNewlines] turns into one more
    line.  The text [a\r\nb] against itself has two lines and is
    identical; after the replacement on the original side there are
    three lines and a change. *)
Lemma crlf_twice_counterexample :
  let t := ("a" ++ String JS.CR (String JS.LF "b"))%string in
  summary (computeTextDiff LineDiff.diffLines t t)
  = DiffSummary.mk true 2 0 0 0 0
  /\ crlf t = ("a" ++ String JS.CR (String JS.CR (String JS.LF "b")))%string
  /\ normalizeNewlines (crlf t)
     = ("a" ++ String JS.LF (String JS.LF "b"))%string
  /\ DiffSummary.totalLines
       (summary (computeTextDiff LineDiff.diffLines (crlf t) t)) = 3
  /\ DiffSummary.identical
       (summary (computeTextDiff LineDiff.diffLines (crlf t) t)) = false.
Proof. vm_compute. repeat split; reflexivity. Qed.

(** C7, amended: replacing every line feed with carriage return, line
    feed in an input in which no carriage return immediately precedes a
    line feed leaves the whole result (summary, kinds, texts and line
    numbers) unchanged, whatever the other input and the line differ;
    and so for both inputs when the condition holds of both. *)
Theorem newline_style_invariance
  (diffLines : string -> string -> list Change.t) (a b : string) :
  (hasCRLF a = false ->
   computeTextDiff diffLines (crlf a) b = computeTextDiff diffLines a b)
  /\ (hasCRLF b = false ->
      computeTextDiff diffLines a (crlf b) = computeTextDiff diffLines a b)
  /\ (hasCRLF a = false -> hasCRLF b = false ->
      computeTextDiff diffLines (crlf a) (crlf b)
      = computeTextDiff diffLines a b).
Proof.
  repeat split; intros;
    apply computeTextDiff_normalized;
    first [now apply normalizeNewlines_crlf | reflexivity].
Qed.

Lemma newline_style_invariance_witness :
  let a := unlines ["hello"; "world"] in
  let b :=
    ("hello" ++ String JS.CR (String JS.LF ("there" ++ String JS.CR "world")))%string
  in
  computeTextDiff LineDiff.diffLines (crlf a) b
  = computeTextDiff LineDiff.diffLines a b
  /\ computeTextDiff LineDiff.diffLines b (crlf a)
     = computeTextDiff LineDiff.diffLines b a
  /\ computeTextDiff LineDiff.diffLines (crlf a) (crlf a)
     = computeTextDiff LineDiff.diffLines a a.
Proof.
  split; [|split].
  - exact (proj1
             (newline_style_invariance LineDiff.diffLines
                (unlines ["hello"; "world"])
                ("hello" ++ String JS.CR
                   (String JS.LF ("there" ++ String JS.CR "world")))%string)
             eq_refl).
  - exact (proj1 (proj2
             (newline_style_invariance LineDiff.diffLines
                ("hello" ++ String JS.CR
                   (String JS.LF ("there" ++ String JS.CR "world")))%string
                (unlines ["hello"; "world"])))
             eq_refl).
  - exact (proj2 (proj2
             (newline_style_invariance LineDiff.diffLines
                (unlines ["hello"; "world"]) (unlines ["hello"; "world"])))
             eq_refl eq_refl).
Defined.

(** * Further properties of the code *)

(** ** Newlines and lines *)

(** [normalizeNewlines] leaves no carriage return and is idempotent, so
    texts that [decodeText] has already normalized are reconciled as they
    are: normalizing them first does not change the result. *)
Theorem normalizeNewlines_idempotent
  (diffLines : string -> string -> list Change.t) (a b : string) :
  hasCR (normalizeNewlines a) = false
  /\ normalizeNewlines (normalizeNewlines a) = normalizeNewlines a
  /\ computeTextDiff diffLines (normalizeNewlines a) (normalizeNewlines b)
     = computeTextDiff diffLines a b.
Proof.
  assert (H : forall s, normalizeNewlines (normalizeNewlines s)
                        = normalizeNewlines s).
  { intros s. apply noCR_normalized. apply replaceCR_noCR. }
  split; [apply replaceCR_noCR|].
  split; [apply H|].
  apply computeTextDiff_normalized; apply H.
Qed.

Lemma split_noLF (s : string) :
  Forall (fun l => hasLF l = false) (JS.split s).
Proof.
  induction s as [|c s IH]; simpl.
  - repeat constructor.
  - destruct (Ascii.eqb c JS.LF) eqn:Hc.
    + constructor; [reflexivity | exact IH].
    + destruct (JS.split s) as [|p ps]; [repeat constructor; simpl; now rewrite Hc|].
      constructor; [|exact (Forall_inv_tail IH)].
      simpl. rewrite Hc. exact (Forall_inv IH).
Qed.

Lemma Forall_removelast {A : Type} (P : A -> Prop) (l : list A) :
  Forall P l -> Forall P (removelast l).
Proof.
  induction l as [|x l IH]; intros H; [constructor|].
  simpl. destruct l as [|y l']; [constructor|].
  constructor; [exact (Forall_inv H) | apply IH, (Forall_inv_tail H)].
Qed.

Lemma split_line (l rest : string) :
  hasLF l = false ->
  JS.split (l ++ String JS.LF rest)%string = l :: JS.split rest.
Proof.
  induction l as [|c l IH]; intros H; [reflexivity|].
  simpl in H. apply orb_false_iff in H as [Hc Hl].
  simpl. rewrite Hc, (IH Hl). reflexivity.
Qed.

Lemma split_unlines (ls : list string) :
  Forall (fun l => hasLF l = false) ls ->
  JS.split (unlines ls) = ls ++ [EmptyString].
Proof.
  induction ls as [|l ls IH]; intros H; [reflexivity|].
  simpl. rewrite split_line by exact (Forall_inv H).
  now rewrite IH by exact (Forall_inv_tail H).
Qed.

Lemma unlines_split (s : string) :
  unlines (JS.split s) = (s ++ String JS.LF EmptyString)%string.
Proof.
  induction s as [|c s IH]; [reflexivity|].
  simpl. destruct (Ascii.eqb_spec c JS.LF) as [->|Hc].
  - simpl. now rewrite IH.
  - destruct (JS.split s) as [|p ps]; simpl in *.
    + destruct s; discriminate IH.
    + now rewrite IH.
Qed.

Lemma endsWithLF_inv (s : string) :
  endsWithLF s = true ->
  exists s', s = (s' ++ String JS.LF EmptyString)%string.
Proof.
  induction s as [|c s IH]; intros H; [discriminate|].
  destruct s as [|d s'].
  - simpl in H. apply Ascii.eqb_eq in H as ->. now exists EmptyString.
  - destruct (IH H) as [t Ht]. exists (String c t). simpl. now rewrite <- Ht.
Qed.

(** Splitting and joining lines are inverse to each other: the lines of
    [splitPreserve] contain no line feed, and joining them, each with its
    terminator, gives the text back, with the final line feed it may have
    lacked. *)
Theorem splitPreserve_join (s : string) :
  Forall (fun l => hasLF l = false) (splitPreserve s)
  /\ unlines (splitPreserve s)
     = if ((s =? "")%string || endsWithLF s)%bool then s
       else (s ++ String JS.LF EmptyString)%string.
Proof.
  split.
  - unfold splitPreserve. destruct (s =? "")%string; [constructor|].
    destruct (last (JS.split s) "x");
      [apply Forall_removelast|]; apply split_noLF.
  - destruct (String.eqb_spec s "") as [->|Hne]; [reflexivity|].
    simpl. destruct (endsWithLF s) eqn:He.
    + destruct (endsWithLF_inv s He) as [s' ->].
      rewrite splitPreserve_app_LF. apply unlines_split.
    + rewrite splitPreserve_unterminated by assumption.
      apply unlines_split.
Qed.

(** Conversely, a text made of lines without line feed, each followed by
    a line feed, splits into exactly those lines. *)
Theorem splitPreserve_unlines (ls : list string) :
  Forall (fun l => hasLF l = false) ls ->
  splitPreserve (unlines ls) = ls.
Proof.
  intros H. destruct ls as [|l ls]; [reflexivity|].
  unfold splitPreserve.
  replace (unlines (l :: ls) =? "")%string with false
    by (simpl; destruct l; reflexivity).
  rewrite split_unlines by exact H.
  rewrite last_last. apply removelast_last.
Qed.

Lemma splitPreserve_unlines_witness :
  splitPreserve (unlines ["alpha"; ""; "beta"]) = ["alpha"; ""; "beta"].
Proof.
  apply (splitPreserve_unlines ["alpha"; ""; "beta"]).
  repeat constructor.
Defined.

(** ** File extensions *)

Lemma lowerChar_idempotent (c : ascii) :
  JS.lowerChar (JS.lowerChar c) = JS.lowerChar c.
Proof. destruct c as [[] [] [] [] [] [] [] []]; reflexivity. Qed.

Lemma lowerChar_dot (c : ascii) :
  Ascii.eqb (JS.lowerChar c) "."%char = Ascii.eqb c "."%char.
Proof. destruct c as [[] [] [] [] [] [] [] []]; reflexivity. Qed.

Lemma toLowerCase_idempotent (s : string) :
  JS.toLowerCase (JS.toLowerCase s) = JS.toLowerCase s.
Proof.
  induction s as [|c s IH]; [reflexivity|].
  simpl. now rewrite lowerChar_idempotent, IH.
Qed.

Lemma hasDot_toLowerCase (s : string) :
  hasDot (JS.toLowerCase s) = hasDot s.
Proof.
  induction s as [|c s IH]; [reflexivity|].
  simpl. now rewrite lowerChar_dot, IH.
Qed.

Lemma string_length_app (a b : string) :
  String.length (a ++ b)%string = String.length a + String.length b.
Proof. induction a as [|c a IH]; simpl; [reflexivity | now rewrite IH]. Qed.

Lemma string_app_assoc (a b c : string) :
  ((a ++ b) ++ c)%string = (a ++ (b ++ c))%string.
Proof. induction a as [|x a IH]; simpl; [reflexivity | now rewrite IH]. Qed.

Lemma lastIndexOf_noDot (s : string) :
  hasDot s = false -> JS.lastIndexOf s "."%char = (-1)%Z.
Proof.
  induction s as [|c s IH]; intros H; [reflexivity|].
  simpl in H. apply orb_false_iff in H as [Hc Hs].
  simpl. now rewrite (IH Hs), Hc.
Qed.

Lemma lastIndexOf_join (base ext : string) :
  hasDot ext = false ->
  JS.lastIndexOf (base ++ String "."%char ext)%string "."%char
  = Z.of_nat (String.length base).
Proof.
  intros H. induction base as [|c base IH].
  - simpl. now rewrite (lastIndexOf_noDot ext H).
  - cbn [append JS.lastIndexOf String.length]. rewrite IH.
    destruct (Z.eqb_spec (Z.of_nat (String.length base)) (-1)); lia.
Qed.

Lemma drop_join (base rest : string) :
  JS.drop (String.length base) (base ++ rest)%string = rest.
Proof. induction base as [|c base IH]; [now destruct rest | exact IH]. Qed.

(** A name has no dot, or splits at its last dot. *)
Lemma last_dot_cases (s : string) :
  hasDot s = false
  \/ exists base ext,
       s = (base ++ String "."%char ext)%string /\ hasDot ext = false.
Proof.
  induction s as [|c s IH]; [now left|].
  destruct IH as [Hs|(base & ext & -> & Hext)].
  - destruct (Ascii.eqb c "."%char) eqn:Hc.
    + right. exists EmptyString, s. apply Ascii.eqb_eq in Hc as ->. now split.
    + left. simpl. now rewrite Hc.
  - right. exists (String c base), ext. now split.
Qed.

Section ExtensionProperties.

Variable toLowerCase : string -> string.

Lemma extensionOf_at_last_dot (base ext : string) :
  hasDot ext = false ->
  ext <> EmptyString ->
  extensionOf toLowerCase (base ++ String "."%char ext)%string
  = toLowerCase ext.
Proof.
  intros H Hne. unfold extensionOf.
  rewrite (lastIndexOf_join base ext H), string_length_app.
  cbn [String.length].
  destruct (Z.eqb_spec (Z.of_nat (String.length base)) (-1)) as [E|_]; [lia|].
  destruct ext as [|c ext]; [contradiction|].
  cbn [String.length orb].
  destruct (Z.eqb_spec (Z.of_nat (String.length base))
              (Z.of_nat (String.length base + S (S (String.length ext))) - 1))
    as [E|_]; [lia|].
  unfold JS.slice.
  replace (Z.to_nat (Z.of_nat (String.length base) + 1))
    with (String.length (base ++ ".")%string)
    by (rewrite string_length_app; simpl; lia).
  replace (base ++ String "."%char (String c ext))%string
    with ((base ++ ".") ++ String c ext)%string
    by (now rewrite string_app_assoc).
  now rewrite drop_join.
Qed.

Lemma extensionOf_trailing_dot (base : string) :
  extensionOf toLowerCase (base ++ ".")%string = EmptyString.
Proof.
  unfold extensionOf.
  rewrite (lastIndexOf_join base EmptyString eq_refl), string_length_app.
  cbn [String.length].
  replace (Z.of_nat (String.length base + 1) - 1)%Z
    with (Z.of_nat (String.length base)) by lia.
  now rewrite Z.eqb_refl, orb_true_r.
Qed.

Lemma extensionOf_no_dot (name : string) :
  hasDot name = false -> extensionOf toLowerCase name = EmptyString.
Proof.
  intros H. unfold extensionOf. now rewrite (lastIndexOf_noDot name H).
Qed.

(** The extension of a name is what follows its last dot, folded to
    lower case by the platform: for a non-empty extension without dot,
    [extensionOf (base ++ "." ++ ext)] is [toLowerCase ext], whatever
    [base]; a name that ends with a dot has the empty extension. *)
Theorem extensionOf_join (base ext : string) :
  hasDot ext = false ->
  (ext <> EmptyString ->
   extensionOf toLowerCase (base ++ String "."%char ext)%string
   = toLowerCase ext)
  /\ extensionOf toLowerCase (base ++ ".")%string = EmptyString.
Proof.
  intros H. split.
  - now apply extensionOf_at_last_dot.
  - apply extensionOf_trailing_dot.
Qed.

(** Whatever the name, the extension contains no dot and is in lower
    case (folding it again changes nothing), and it is empty for a name
    without dot; this rests on three facts about the platform's folding:
    it is idempotent, it keeps the empty string and it brings no dot into
    a string without dot. *)
Theorem extensionOf_shape (name : string) :
  (forall s, toLowerCase (toLowerCase s) = toLowerCase s) ->
  toLowerCase EmptyString = EmptyString ->
  (forall s, hasDot s = false -> hasDot (toLowerCase s) = false) ->
  hasDot (extensionOf toLowerCase name) = false
  /\ toLowerCase (extensionOf toLowerCase name)
     = extensionOf toLowerCase name
  /\ (hasDot name = false -> extensionOf toLowerCase name = EmptyString).
Proof.
  intros Hidem Hnil Hdot.
  split; [|split; [|apply extensionOf_no_dot]].
  - destruct (last_dot_cases name) as [H|(base & ext & -> & Hext)].
    + now rewrite (extensionOf_no_dot name H).
    + destruct ext as [|c ext]; [now rewrite extensionOf_trailing_dot|].
      rewrite (extensionOf_at_last_dot base (String c ext) Hext)
        by discriminate.
      now apply Hdot.
  - destruct (last_dot_cases name) as [H|(base & ext & -> & Hext)].
    + now rewrite (extensionOf_no_dot name H).
    + destruct ext as [|c ext]; [now rewrite extensionOf_trailing_dot|].
      rewrite (extensionOf_at_last_dot base (String c ext) Hext)
        by discriminate.
      apply Hidem.
Qed.

End ExtensionProperties.

Lemma extensionOf_join_witness :
  extensionOf JS.toLowerCase ("archive.tar" ++ String "."%char "GZ")%string
  = "gz"
  /\ extensionOf JS.toLowerCase ("archive" ++ ".")%string = EmptyString.
Proof.
  destruct (extensionOf_join JS.toLowerCase "archive.tar" "GZ" eq_refl)
    as [H1 _].
  destruct (extensionOf_join JS.toLowerCase "archive" "GZ" eq_refl)
    as [_ H2].
  split; [apply H1; discriminate | exact H2].
Defined.

Lemma extensionOf_shape_witness :
  hasDot (extensionOf JS.toLowerCase "notes.final.TXT") = false
  /\ extensionOf JS.toLowerCase "Makefile" = EmptyString.
Proof.
  split.
  - apply (extensionOf_shape JS.toLowerCase "notes.final.TXT").
    + exact toLowerCase_idempotent.
    + reflexivity.
    + intros s H. now rewrite hasDot_toLowerCase.
  - apply (extensionOf_shape JS.toLowerCase "Makefile").
    + exact toLowerCase_idempotent.
    + reflexivity.
    + intros s H. now rewrite hasDot_toLowerCase.
    + reflexivity.
Defined.
(** ** Hints of the classifier *)

(** A declared type that starts (in lower case) with a binary prefix
    gives the binary verdict, whatever the extension and the bytes: no
    binary prefix is matched by a text prefix. *)
Theorem binary_mime_forces_binary
  (buffer : list byte) (mime extension : option string) :
  someStartsWith BINARY_MIME_HINTS (JS.toLowerCase (JS.nullish mime "")) = true ->
  isProbablyText buffer mime extension = false.
Proof.
  intros H. unfold isProbablyText.
  set (nm := JS.toLowerCase (JS.nullish mime "")) in *.
  unfold someStartsWith in H at 1.
  apply existsb_exists in H as (hint & Hin & Hs).
  destruct (startsWith_inv _ _ Hs) as [r Hr]. rewrite Hr.
  unfold BINARY_MIME_HINTS in Hin.
  repeat (destruct Hin as [<-|Hin]; [destruct r; reflexivity|]).
  contradiction.
Qed.

Lemma binary_mime_forces_binary_witness :
  isProbablyText (list_byte_of_string "plain words") (Some "Image/PNG")
    (Some "txt") = false.
Proof.
  apply (binary_mime_forces_binary (list_byte_of_string "plain words")
           (Some "Image/PNG") (Some "txt")).
  reflexivity.
Defined.

(** The hints are read without regard to case: folding the declared type
    and the extension to lower case does not change the verdict. *)
Theorem hints_case_insensitive
  (buffer : list byte) (mime extension : option string) :
  isProbablyText buffer mime extension
  = isProbablyText buffer (option_map JS.toLowerCase mime)
      (option_map JS.toLowerCase extension).
Proof.
  unfold isProbablyText.
  replace (JS.toLowerCase (JS.nullish (option_map JS.toLowerCase mime) ""))
    with (JS.toLowerCase (JS.nullish mime ""))
    by (destruct mime; simpl; now rewrite ?toLowerCase_idempotent).
  replace (JS.toLowerCase
             (JS.nullish (option_map JS.toLowerCase extension) ""))
    with (JS.toLowerCase (JS.nullish extension ""))
    by (destruct extension; simpl; now rewrite ?toLowerCase_idempotent).
  replace (JS.truthy (option_map JS.toLowerCase extension))
    with (JS.truthy extension)
    by (destruct extension as [[|c e]|]; reflexivity).
  reflexivity.
Qed.

(** ** Content sniffing *)

Lemma to_N_zero (b : byte) : Byte.to_N b = 0%N -> b = x00.
Proof.
  intros H. pose proof (Byte.of_to_N b) as E. rewrite H in E.
  now injection E.
Qed.

Lemma controlScan_count (sample : list byte) :
  ~ In x00 sample ->
  forall n, controlScan sample n = inr (n + countControl sample).
Proof.
  unfold countControl.
  induction sample as [|b rest IH]; intros Hno n; simpl.
  - now rewrite Nat.add_0_r.
  - destruct (N.eqb_spec (Byte.to_N b) 0) as [E|_].
    + exfalso. apply Hno. left. now apply to_N_zero.
    + rewrite IH by (intros Hin; apply Hno; now right).
      destruct (CONTROL_BYTES_has b); simpl; f_equal; lia.
Qed.

Lemma countControl_le (sample : list byte) :
  countControl sample <= List.length sample.
Proof. apply filter_length_le. Qed.

Lemma wB_value : wB = 9223372036854775808%Z.
Proof. reflexivity. Qed.

Lemma of_Z_succ (z : Z) : (Uint63.of_Z z + 1)%uint63 = Uint63.of_Z (z + 1).
Proof.
  apply Uint63.to_Z_inj.
  rewrite Uint63.add_spec, !Uint63.of_Z_spec, Uint63.to_Z_1.
  now rewrite Z.add_mod_idemp_l by (rewrite wB_value; lia).
Qed.

Lemma ratioAgreesCounts_sound (fuel : nat) (len : int) :
  forall c,
    ratioAgreesCounts fuel (Uint63.of_Z c) len = true ->
    forall k, (c <= k < c + Z.of_nat fuel)%Z ->
              ratioAgrees (Uint63.of_Z k) len = true.
Proof.
  induction fuel as [|fuel IH]; intros c H k Hk; [lia|].
  simpl in H. apply andb_true_iff in H as [H0 H1].
  destruct (Z.eq_dec k c) as [->|Hne]; [exact H0|].
  rewrite of_Z_succ in H1. apply (IH (c + 1)%Z H1). lia.
Qed.

Lemma ratioAgreesLens_sound (fuel : nat) :
  forall lenNat,
    ratioAgreesLens fuel lenNat (Uint63.of_Z (Z.of_nat lenNat)) = true ->
    forall l k,
      lenNat <= l < lenNat + fuel -> k <= l ->
      ratioAgrees (Uint63.of_Z (Z.of_nat k)) (Uint63.of_Z (Z.of_nat l)) = true.
Proof.
  induction fuel as [|fuel IH]; intros lenNat H l k Hl Hk; [lia|].
  simpl in H. apply andb_true_iff in H as [H0 H1].
  destruct (Nat.eq_dec l lenNat) as [->|Hne].
  - apply (ratioAgreesCounts_sound (S lenNat) _ 0%Z H0). lia.
  - rewrite of_Z_succ in H1.
    replace (Z.of_nat lenNat + 1)%Z with (Z.of_nat (S lenNat)) in H1 by lia.
    apply (IH (S lenNat) H1); lia.
Qed.

(** Over every sample the classifier can take, the comparison of the
    double [count / length] with [0.1] is the comparison of
    [10 * count] with [length]. *)
Lemma ratio_threshold (count len : nat) :
  1 <= len <= MAX_SNIFF_BYTES -> count <= len ->
  (JS.toNumber count / JS.toNumber len <? one_tenth)%float
  = (10 * count <? len)%nat.
Proof.
  intros Hlen Hcount.
  assert (Hall : ratioAgreesLens MAX_SNIFF_BYTES 1
                   (Uint63.of_Z (Z.of_nat 1)) = true)
    by (vm_compute; reflexivity).
  pose proof (ratioAgreesLens_sound _ _ Hall len count) as H.
  unfold MAX_SNIFF_BYTES in *.
  specialize (H ltac:(lia) Hcount).
  unfold ratioAgrees in H. apply Bool.eqb_prop in H.
  unfold JS.toNumber. rewrite H.
  destruct (Nat.ltb_spec (10 * count) len) as [Hlt|Hge].
  - apply Uint63.ltb_spec.
    rewrite Uint63.mul_spec, !Uint63.of_Z_spec, wB_value.
    change (to_Z 10) with 10%Z.
    rewrite (Z.mod_small (Z.of_nat count)), (Z.mod_small (Z.of_nat len)),
      Z.mod_small by lia.
    lia.
  - apply not_true_is_false. intros Hlt. apply Uint63.ltb_spec in Hlt.
    rewrite Uint63.mul_spec, !Uint63.of_Z_spec, wB_value in Hlt.
    change (to_Z 10) with 10%Z in Hlt.
    rewrite (Z.mod_small (Z.of_nat count)), (Z.mod_small (Z.of_nat len)),
      Z.mod_small in Hlt by lia.
    lia.
Qed.

(** When no hint decides and the sample (the first [MAX_SNIFF_BYTES]
    bytes) holds no NUL byte, the verdict is text exactly when the sample
    is empty or fewer than one in ten of its bytes are control bytes:
    the double-precision test [ratio < 0.1] never departs from the exact
    comparison. *)
Theorem sniffing_threshold
  (buffer : list byte) (mime extension : option string) :
  someStartsWith TEXT_MIME_HINTS (JS.toLowerCase (JS.nullish mime "")) = false ->
  someStartsWith BINARY_MIME_HINTS (JS.toLowerCase (JS.nullish mime "")) = false ->
  JS.includes TEXT_EXT_HINTS (JS.toLowerCase (JS.nullish extension "")) = false ->
  ~ In x00 (firstn MAX_SNIFF_BYTES buffer) ->
  let sample := firstn MAX_SNIFF_BYTES buffer in
  isProbablyText buffer mime extension
  = ((List.length sample =? 0)%nat
     || (10 * countControl sample <? List.length sample)%nat).
Proof.
  intros Htext Hbin Hext Hnul sample.
  unfold isProbablyText.
  rewrite Htext, Hbin, Hext, !andb_false_r.
  unfold controlRatio. rewrite sample_firstn. fold sample.
  destruct (Nat.eqb_spec (List.length sample) 0) as [E|Hne]; [reflexivity|].
  rewrite (controlScan_count sample Hnul 0). simpl.
  apply ratio_threshold; [|apply countControl_le].
  split; [lia|]. unfold sample. rewrite length_firstn. lia.
Qed.

Lemma sniffing_threshold_witness :
  isProbablyText [x01; x02; x61; x62; x63; x64; x65; x66; x67; x68; x69]
    None None = false
  /\ isProbablyText [x01; x61; x62; x63; x64; x65; x66; x67; x68; x69; x6a]
       None None = true.
Proof.
  split.
  - rewrite (sniffing_threshold
               [x01; x02; x61; x62; x63; x64; x65; x66; x67; x68; x69]
               None None); try reflexivity.
    intros H; repeat (destruct H as [H|H]; [discriminate H|]); exact H.
  - rewrite (sniffing_threshold
               [x01; x61; x62; x63; x64; x65; x66; x67; x68; x69; x6a]
               None None); try reflexivity.
    intros H; repeat (destruct H as [H|H]; [discriminate H|]); exact H.
Defined.

(** ** Invariants of the reconciler *)

Lemma fold_left_invariant {A : Type} (P : Loop.state -> Prop)
  (f : Loop.state -> A -> Loop.state) (l : list A) :
  (forall st x, P st -> P (f st x)) ->
  forall st, P st -> P (fold_left f l st).
Proof.
  intros Hf. induction l as [|x l IH]; intros st H; simpl; [exact H|].
  apply IH, Hf, H.
Qed.

(** What the four [diff.push] blocks preserve, the loop preserves. *)
Lemma scan_invariant (P : Loop.state -> Prop) :
  (forall st b a, P st -> P (pushModified st b a)) ->
  (forall st b, P st -> P (pushRemoved st b)) ->
  (forall st a, P st -> P (pushAdded st a)) ->
  (forall st l, P st -> P (pushUnchanged st l)) ->
  forall changes st, P st -> P (scan changes st).
Proof.
  intros Hm Hr Ha Hu.
  assert (Hsingle : forall c st, P st -> P (single c st)).
  { intros c st H. unfold single.
    destruct (Change.added c); [|destruct (Change.removed c)];
      apply fold_left_invariant; assumption. }
  assert (Hgroup : forall dels ins st, P st -> P (group dels ins st)).
  { intros dels ins st H. unfold group.
    apply fold_left_invariant; [|exact H].
    intros s j Hs. unfold groupStep.
    destruct (nth_error dels j), (nth_error ins j); auto. }
  induction changes as [|c|x y l IHl IHyl] using scan_induction;
    intros st H.
  - exact H.
  - apply Hsingle, H.
  - rewrite scan_two. destruct (_ && _); [apply IHl, Hgroup | apply IHyl, Hsingle];
      exact H.
Qed.

Lemma countType_snoc (t : DiffLineType) (ls : list DiffLine.t)
  (l : DiffLine.t) :
  countType t (ls ++ [l])
  = countType t ls + (if hasType t l then 1 else 0).
Proof.
  unfold countType. rewrite filter_app, length_app. simpl.
  destruct (hasType t l); reflexivity.
Qed.

Lemma scan_counts (changes : list Change.t) :
  countsAgree (scan changes Loop.init).
Proof.
  apply scan_invariant;
    try (intros st ? ? (Ha & Hr & Hm) || intros st ? (Ha & Hr & Hm));
    unfold countsAgree; simpl; rewrite ?countType_snoc; simpl;
    repeat split; lia.
Qed.

(** The counts of the summary are the numbers of output lines of each
    kind, whatever the line differ returns. *)
Theorem summary_counts_lines
  (diffLines : string -> string -> list Change.t)
  (original comparison : string) :
  let r := computeTextDiff diffLines original comparison in
  DiffSummary.added (summary r) = countType added (lines r)
  /\ DiffSummary.removed (summary r) = countType removed (lines r)
  /\ DiffSummary.modified (summary r) = countType modified (lines r).
Proof. simpl. apply scan_counts. Qed.

Lemma no_change_all_unchanged (ls : list DiffLine.t) :
  countType added ls + countType removed ls + countType modified ls = 0
  <-> Forall (fun l => DiffLine.type l = unchanged) ls.
Proof.
  unfold countType, hasType.
  induction ls as [|l ls IH]; simpl.
  - split; [constructor | reflexivity].
  - split.
    + intros H. destruct (DiffLine.type l) eqn:E; simpl in H; try lia.
      constructor; [exact E | apply IH; exact H].
    + intros H. pose proof (Forall_inv H) as E. simpl in E. rewrite E.
      apply IH. exact (Forall_inv_tail H).
Qed.

(** [identical] holds exactly when every output line is [unchanged], and
    then [changePercent] is [0]. *)
Theorem identical_iff_all_unchanged
  (diffLines : string -> string -> list Change.t)
  (original comparison : string) :
  let r := computeTextDiff diffLines original comparison in
  (DiffSummary.identical (summary r) = true
   <-> Forall (fun l => DiffLine.type l = unchanged) (lines r))
  /\ (DiffSummary.identical (summary r) = true ->
      DiffSummary.changePercent (summary r) = 0%Z).
Proof.
  simpl.
  set (st := scan _ Loop.init).
  destruct (scan_counts
              (diffLines (normalizeNewlines original)
                 (normalizeNewlines comparison))) as (Ha & Hr & Hm).
  fold st in Ha, Hr, Hm.
  split.
  - rewrite Nat.eqb_eq, Ha, Hr, Hm. apply no_change_all_unchanged.
  - intros H. apply Nat.eqb_eq in H. rewrite H.
    destruct (Nat.max _ _ =? 0)%nat; [reflexivity | apply percent_zero].
Qed.

Lemma identical_iff_all_unchanged_witness :
  DiffSummary.changePercent
    (summary
       (computeTextDiff LineDiff.diffLines (unlines ["a"; "b"])
          (unlines ["a"; "b"]))) = 0%Z.
Proof.
  apply (identical_iff_all_unchanged LineDiff.diffLines
           (unlines ["a"; "b"]) (unlines ["a"; "b"])).
  reflexivity.
Defined.

(** Every output line carries the fields of its kind: an [unchanged]
    line both numbers and twice the same text, an [added] line the new
    side only, a [removed] line the old side only, a [modified] line both
    numbers and both texts. *)
Theorem lines_well_shaped
  (diffLines : string -> string -> list Change.t)
  (original comparison : string) :
  Forall wellShaped (lines (computeTextDiff diffLines original comparison)).
Proof.
  rewrite lines_computeTextDiff.
  apply (scan_invariant (fun st => Forall wellShaped (Loop.diff st)));
    try (intros st ? ? H || intros st ? H);
    try (simpl; apply Forall_app; split; [exact H|];
         constructor; [|constructor]; unfold wellShaped; simpl; eauto 6).
  constructor.
Qed.

Lemma seq_1_snoc (k : nat) : 1 <= k -> seq 1 (k + 1 - 1) = seq 1 (k - 1) ++ [k].
Proof.
  intros H. replace (k + 1 - 1) with (S (k - 1)) by lia.
  rewrite seq_S. do 2 f_equal. lia.
Qed.

Lemma scan_numbered (changes : list Change.t) :
  numbered (scan changes Loop.init).
Proof.
  apply scan_invariant;
    try (intros st ? ? (Ho & Hn & Eo & En) || intros st ? (Ho & Hn & Eo & En));
    try (unfold numbered, oldNumbers, newNumbers in *; simpl;
         rewrite !flat_map_app; simpl; rewrite ?app_nil_r, ?Eo, ?En;
         rewrite ?seq_1_snoc by assumption;
         repeat split; try lia; reflexivity).
  repeat split; simpl; lia.
Qed.

(** The line numbers of each side run from 1 without gap: the old
    numbers of the lines that have one are 1, 2, 3, ... in order, and so
    are the new numbers. *)
Theorem line_numbers_consecutive
  (diffLines : string -> string -> list Change.t)
  (original comparison : string) :
  let out := lines (computeTextDiff diffLines original comparison) in
  oldNumbers out = seq 1 (List.length (oldNumbers out))
  /\ newNumbers out = seq 1 (List.length (newNumbers out)).
Proof.
  intros out. subst out. rewrite lines_computeTextDiff.
  destruct (scan_numbered
              (diffLines (normalizeNewlines original)
                 (normalizeNewlines comparison))) as (_ & _ & Eo & En).
  rewrite Eo, En, !length_seq. split; reflexivity.
Qed.

(** ** The two sides of the output *)

Lemma firstn_snoc {A : Type} (l : list A) :
  forall n, firstn (S n) l = firstn n l ++ optList (nth_error l n).
Proof.
  induction l as [|x l IH]; intros n.
  - destruct n; reflexivity.
  - destruct n as [|n]; [reflexivity|].
    change (x :: firstn (S n) l = x :: (firstn n l ++ optList (nth_error l n))).
    now rewrite IH.
Qed.

Lemma flat_nth_seq {A : Type} (l : list A) (n : nat) :
  flat_map (fun j => optList (nth_error l j)) (seq 0 n) = firstn n l.
Proof.
  induction n as [|n IH]; [reflexivity|].
  rewrite seq_S, flat_map_app, IH, firstn_snoc. simpl.
  now rewrite app_nil_r.
Qed.

Lemma sides_fold {A : Type} (f : Loop.state -> A -> Loop.state)
  (olds news : A -> list string) (l : list A) :
  (forall st x,
      sides (f st x) = (fst (sides st) ++ olds x, snd (sides st) ++ news x)) ->
  forall st,
    sides (fold_left f l st)
    = (fst (sides st) ++ flat_map olds l, snd (sides st) ++ flat_map news l).
Proof.
  intros Hf. induction l as [|x l IH]; intros st; simpl.
  - now rewrite !app_nil_r.
  - rewrite IH, Hf. simpl. now rewrite <- !app_assoc.
Qed.

Lemma sides_push (st : Loop.state) (line : DiffLine.t) (diff' : list DiffLine.t) :
  diff' = Loop.diff st ++ [line] ->
  (beforeTexts diff', afterTexts diff')
  = (fst (sides st) ++ optList (DiffLine.before line),
     snd (sides st) ++ optList (DiffLine.after line)).
Proof.
  intros ->. unfold sides, beforeTexts, afterTexts.
  rewrite !flat_map_app. simpl. now rewrite !app_nil_r.
Qed.

Lemma flat_map_singleton {A : Type} (l : list A) :
  flat_map (fun x => [x]) l = l.
Proof. induction l as [|x l IH]; simpl; [reflexivity | now rewrite IH]. Qed.

Lemma flat_map_nil {A B : Type} (l : list A) :
  flat_map (fun _ : A => @nil B) l = [].
Proof. induction l as [|x l IH]; simpl; [reflexivity | exact IH]. Qed.

Lemma sides_group (dels ins : list string) (st : Loop.state) :
  sides (group dels ins st)
  = (fst (sides st) ++ dels, snd (sides st) ++ ins).
Proof.
  unfold group.
  rewrite (sides_fold (groupStep dels ins)
             (fun j => optList (nth_error dels j))
             (fun j => optList (nth_error ins j))).
  - rewrite !flat_nth_seq, !firstn_all2 by lia. reflexivity.
  - intros s j. unfold groupStep.
    destruct (nth_error dels j), (nth_error ins j);
      try (unfold sides at 1; erewrite sides_push by reflexivity;
           simpl; now rewrite ?app_nil_r).
    simpl. now rewrite !app_nil_r.
Qed.

Lemma sides_single (c : Change.t) (st : Loop.state) :
  sides (single c st)
  = (fst (sides st)
     ++ (if Change.added c then [] else splitPreserve (Change.value c)),
     snd (sides st)
     ++ (if Change.added c then splitPreserve (Change.value c)
         else if Change.removed c then []
              else splitPreserve (Change.value c))).
Proof.
  unfold single.
  destruct (Change.added c); [|destruct (Change.removed c)].
  - rewrite (sides_fold pushAdded (fun _ => []) (fun x => [x])).
    + now rewrite flat_map_nil, flat_map_singleton.
    + intros s x. unfold sides at 1. erewrite sides_push by reflexivity.
      simpl. reflexivity.
  - rewrite (sides_fold pushRemoved (fun x => [x]) (fun _ => [])).
    + now rewrite flat_map_nil, flat_map_singleton.
    + intros s x. unfold sides at 1. erewrite sides_push by reflexivity.
      simpl. reflexivity.
  - rewrite (sides_fold pushUnchanged (fun x => [x]) (fun x => [x])).
    + now rewrite flat_map_singleton.
    + intros s x. unfold sides at 1. erewrite sides_push by reflexivity.
      simpl. reflexivity.
Qed.

Lemma sideLines_cons (side : Change.t -> bool) (c : Change.t)
  (changes : list Change.t) :
  sideLines side (c :: changes)
  = (if side c then [] else splitPreserve (Change.value c))
    ++ sideLines side changes.
Proof.
  unfold sideLines, sideValues. simpl. destruct (side c); reflexivity.
Qed.

Lemma sides_scan (changes : list Change.t) :
  forallb exclusiveFlags changes = true ->
  forall st,
    sides (scan changes st)
    = (fst (sides st) ++ sideLines Change.added changes,
       snd (sides st) ++ sideLines Change.removed changes).
Proof.
  induction changes as [|c|x y l IHl IHyl] using scan_induction;
    intros Hex st.
  - simpl. now rewrite !app_nil_r.
  - change (scan [c] st) with (single c st).
    rewrite sides_single, !sideLines_cons.
    unfold sideLines, sideValues. simpl. rewrite !app_nil_r.
    simpl in Hex. rewrite andb_true_r in Hex. unfold exclusiveFlags in Hex.
    destruct (Change.added c), (Change.removed c);
      try discriminate Hex; reflexivity.
  - pose proof Hex as Hex'. simpl in Hex'.
    apply andb_true_iff in Hex' as [Hx Hyl].
    pose proof Hyl as Hyl'. apply andb_true_iff in Hyl' as [Hy Hl].
    rewrite scan_two.
    destruct (Change.removed x && Change.added y) eqn:G.
    + apply andb_true_iff in G as [Gx Gy].
      rewrite (IHl Hl), sides_group. simpl.
      rewrite !(sideLines_cons _ x), !(sideLines_cons _ y).
      unfold exclusiveFlags in Hx, Hy. rewrite Gx, Gy in *.
      destruct (Change.added x); [discriminate Hx|].
      destruct (Change.removed y); [discriminate Hy|].
      simpl. now rewrite <- !app_assoc.
    + rewrite (IHyl Hyl), sides_single. simpl.
      rewrite !(sideLines_cons _ x).
      unfold exclusiveFlags in Hx.
      destruct (Change.added x), (Change.removed x);
        try discriminate Hx; simpl; now rewrite <- ?app_assoc, ?app_nil_r.
Qed.

Lemma split_app_line (a w : string) :
  JS.split (a ++ String JS.LF w)%string = JS.split a ++ JS.split w.
Proof.
  induction a as [|c a IH]; [reflexivity|].
  simpl. rewrite IH.
  destruct (Ascii.eqb c JS.LF); [reflexivity|].
  pose proof (split_not_nil a) as Hne.
  destruct (JS.split a) as [|p ps]; [contradiction | reflexivity].
Qed.

Lemma string_app_nil_r (s : string) : (s ++ "")%string = s.
Proof. induction s as [|c s IH]; simpl; [reflexivity | now rewrite IH]. Qed.

Lemma last_app_nonempty {A : Type} (l1 l2 : list A) (d : A) :
  l2 <> [] -> last (l1 ++ l2) d = last l2 d.
Proof.
  intros H. induction l1 as [|x l1 IH]; [reflexivity|].
  simpl. rewrite IH. destruct (l1 ++ l2) eqn:E; [|reflexivity].
  apply app_eq_nil in E as [_ E]. contradiction.
Qed.

(** After a value made of whole lines, the lines of what follows are
    simply appended. *)
Lemma splitPreserve_app (v w : string) :
  ((v =? "")%string || endsWithLF v)%bool = true ->
  splitPreserve (v ++ w)%string = splitPreserve v ++ splitPreserve w.
Proof.
  intros H. destruct (String.eqb_spec v "") as [->|Hv]; [reflexivity|].
  simpl in H. destruct (endsWithLF_inv v H) as [v' ->].
  rewrite splitPreserve_app_LF.
  destruct (String.eqb_spec w "") as [->|Hw].
  - rewrite string_app_nil_r, splitPreserve_app_LF.
    change (splitPreserve "") with (@nil string). now rewrite app_nil_r.
  - rewrite string_app_assoc. simpl append.
    unfold splitPreserve.
    replace ((v' ++ String JS.LF w)%string =? "")%string with false
      by (destruct v'; reflexivity).
    destruct (String.eqb_spec w "") as [E|_]; [contradiction|].
    rewrite split_app_line.
    rewrite last_app_nonempty by apply split_not_nil.
    destruct (last (JS.split w) "x"); [|reflexivity].
    apply removelast_app, split_not_nil.
Qed.

Lemma splitPreserve_join_values (values : list string) :
  wholeLines values = true ->
  flat_map splitPreserve values = splitPreserve (joinValues values).
Proof.
  induction values as [|v rest IH]; intros H; [reflexivity|].
  destruct rest as [|w rest'].
  - simpl. now rewrite app_nil_r, string_app_nil_r.
  - change (wholeLines (v :: w :: rest'))
      with ((((v =? "")%string || endsWithLF v) && wholeLines (w :: rest'))%bool)
      in H.
    apply andb_true_iff in H as [Hv Hrest].
    change (flat_map splitPreserve (v :: w :: rest'))
      with (splitPreserve v ++ flat_map splitPreserve (w :: rest')).
    change (joinValues (v :: w :: rest'))
      with (v ++ joinValues (w :: rest'))%string.
    now rewrite (IH Hrest), splitPreserve_app.
Qed.

(** When the line differ returns an edit script of the two texts (no
    change both inserted and deleted; on each side, values made of whole
    lines whose concatenation is the normalized text of that side), the
    old texts of the output lines are exactly the lines of the original,
    in order, and the new texts exactly the lines of the comparison. *)
Theorem output_sides_are_inputs
  (diffLines : string -> string -> list Change.t)
  (original comparison : string) :
  let changes :=
    diffLines (normalizeNewlines original) (normalizeNewlines comparison) in
  let out := lines (computeTextDiff diffLines original comparison) in
  forallb exclusiveFlags changes = true ->
  wholeLines (sideValues Change.added changes) = true ->
  joinValues (sideValues Change.added changes) = normalizeNewlines original ->
  wholeLines (sideValues Change.removed changes) = true ->
  joinValues (sideValues Change.removed changes)
  = normalizeNewlines comparison ->
  beforeTexts out = splitPreserve (normalizeNewlines original)
  /\ afterTexts out = splitPreserve (normalizeNewlines comparison).
Proof.
  intros changes out Hex Hwo Hjo Hwn Hjn.
  subst out. rewrite lines_computeTextDiff. fold changes.
  pose proof (sides_scan changes Hex Loop.init) as H.
  unfold sides in H. simpl in H. injection H as Hb Ha.
  unfold sideLines in Hb, Ha.
  rewrite Hb, Ha, !splitPreserve_join_values, Hjo, Hjn by assumption.
  split; reflexivity.
Qed.

Lemma output_sides_are_inputs_witness :
  let out :=
    lines
      (computeTextDiff LineDiff.diffLines
         (unlines ["a"; "b"; "c"])
         ("a" ++ String JS.CR (String JS.LF ("x" ++ String JS.LF "c")))%string)
  in
  beforeTexts out = ["a"; "b"; "c"] /\ afterTexts out = ["a"; "x"; "c"].
Proof.
  apply (output_sides_are_inputs LineDiff.diffLines
           (unlines ["a"; "b"; "c"])
           ("a" ++ String JS.CR (String JS.LF ("x" ++ String JS.LF "c")))%string);
    reflexivity.
Defined.

(** ** The route *)

Lemma blocked_is_binary (buffer : list byte) (mime : string)
  (extension : option string) :
  existsb (fun prefix => JS.startsWith mime prefix) BLOCKED_MIME_PREFIXES
  = true ->
  isProbablyText buffer (Some mime) extension = false.
Proof.
  intros H. apply existsb_exists in H as (prefix & Hin & Hs).
  destruct (startsWith_inv _ _ Hs) as [r ->].
  unfold isProbablyText. cbn [JS.nullish]. rewrite toLowerCase_app.
  unfold BLOCKED_MIME_PREFIXES in Hin.
  repeat (destruct Hin as [<-|Hin];
          [destruct (JS.toLowerCase r); reflexivity|]).
  contradiction.
Qed.

Section RouteProperties.

Variable toLowerCase : string -> string.
Variable fileTypeFromBuffer : list byte -> option FileTypeResult.
Variable hashBuffer : list byte -> string.
Variable utf8Decode : list byte -> string.
Variable diffLines : string -> string -> list Change.t.

Let load := loadFile toLowerCase fileTypeFromBuffer hashBuffer utf8Decode.
Let post := POST toLowerCase fileTypeFromBuffer hashBuffer utf8Decode diffLines.

Lemma load_text (file : File) :
  fd_kind (descriptor (load file)) = text ->
  loaded_text (load file) = Some (decodeText utf8Decode (file_bytes file))
  /\ fd_warnings (descriptor (load file)) = None.
Proof.
  unfold load, loadFile. cbn [descriptor loaded_text buildDescriptor fd_kind
                                fd_warnings].
  set (mime := sniffMime _ _ _ _).
  set (ext := Some (extensionOf toLowerCase (file_name file))).
  destruct (existsb _ BLOCKED_MIME_PREFIXES) eqn:B.
  - unfold classifyKind.
    rewrite (blocked_is_binary (file_bytes file) mime ext B). discriminate.
  - intros ->. split; reflexivity.
Qed.

Lemma load_binary (file : File) :
  fd_kind (descriptor (load file)) = binary ->
  loaded_text (load file) = None.
Proof.
  unfold load, loadFile. cbn [descriptor loaded_text buildDescriptor fd_kind].
  intros ->. reflexivity.
Qed.

(** [loadFile] decodes a file exactly when it classifies it as text, and
    a file that carries a warning (a blocked media type) is never text:
    a text file has its decoded, normalized content and no warning, a
    binary file has no content. *)
Theorem loadFile_decodes_text_only (file : File) :
  let loaded := loadFile toLowerCase fileTypeFromBuffer hashBuffer utf8Decode file in
  match fd_kind (descriptor loaded) with
  | text =>
      loaded_text loaded
      = Some (normalizeNewlines (utf8Decode (file_bytes file)))
      /\ fd_warnings (descriptor loaded) = None
  | binary => loaded_text loaded = None
  end.
Proof.
  intros loaded. subst loaded. fold load.
  destruct (fd_kind (descriptor (load file))) eqn:K.
  - exact (load_text file K).
  - exact (load_binary file K).
Qed.

Lemma post_two_files (entries : list FormEntry) (f1 f2 : File) :
  uploadedFiles entries = [f1; f2] ->
  (file_size f1 <= MAX_FILE_SIZE)%N ->
  (file_size f2 <= MAX_FILE_SIZE)%N ->
  (file_size f1 + file_size f2 <= MAX_COMBINED_SIZE)%N ->
  post (Some entries) = respond diffLines (load f1) (load f2).
Proof.
  intros E H1 H2 H12. unfold post, POST. rewrite E.
  cbn [List.length Nat.eqb negb existsb fold_left map orb].
  apply N.ltb_ge in H1, H2. rewrite H1, H2. cbn [orb].
  rewrite N.add_0_l.
  apply N.ltb_ge in H12. rewrite H12. reflexivity.
Qed.

(** A response with a result is given only to exactly two files, each
    within the per-file limit and together within the combined limit;
    the result describes these two files, in order. *)
Theorem POST_result_validated
  (formData : option (list FormEntry)) (r : DiffResult) :
  POST toLowerCase fileTypeFromBuffer hashBuffer utf8Decode diffLines formData = json r ->
  exists entries f1 f2,
    formData = Some entries
    /\ uploadedFiles entries = [f1; f2]
    /\ (file_size f1 <= MAX_FILE_SIZE)%N
    /\ (file_size f2 <= MAX_FILE_SIZE)%N
    /\ (file_size f1 + file_size f2 <= MAX_COMBINED_SIZE)%N
    /\ dr_files r
       = (descriptor (loadFile toLowerCase fileTypeFromBuffer hashBuffer utf8Decode f1),
          descriptor (loadFile toLowerCase fileTypeFromBuffer hashBuffer utf8Decode f2)).
Proof.
  fold load. unfold POST. destruct formData as [entries|]; [|discriminate].
  destruct (uploadedFiles entries) as [|f1 [|f2 [|f3 rest]]] eqn:E;
    try discriminate.
  cbn [List.length Nat.eqb negb existsb fold_left map orb].
  destruct (N.ltb_spec MAX_FILE_SIZE (file_size f1)) as [|H1];
    [discriminate|].
  destruct (N.ltb_spec MAX_FILE_SIZE (file_size f2)) as [|H2];
    [discriminate|].
  cbn [orb]. rewrite N.add_0_l.
  destruct (N.ltb_spec MAX_COMBINED_SIZE (file_size f1 + file_size f2))
    as [|H12]; [discriminate|].
  intros H. exists entries, f1, f2. repeat split; try assumption.
  unfold respond in H. fold load in H.
  destruct (_ && _) in H; [destruct (_ || _) in H; [discriminate|]|];
    injection H as <-; reflexivity.
Qed.

Lemma normalizeNewlines_empty (s : string) :
  normalizeNewlines s = EmptyString -> s = EmptyString.
Proof.
  unfold normalizeNewlines. destruct s as [|c s]; [reflexivity|].
  simpl. destruct (Ascii.eqb c JS.CR); [destruct s as [|d s']|];
    simpl; try discriminate.
  destruct (Ascii.eqb d JS.LF); discriminate.
Qed.

Lemma nonEmpty_snoc {A : Type} (l : list A) (x : A) :
  nonEmpty (l ++ [x]) = Some (l ++ [x]).
Proof. destruct l; reflexivity. Qed.

(** Two files classified as text whose decoded contents are not empty
    get the reconciliation of their decoded contents (normalizing twice
    changes nothing), as summary and as line list, and no warning. *)
Theorem POST_text_pair (entries : list FormEntry) (f1 f2 : File) :
  uploadedFiles entries = [f1; f2] ->
  (file_size f1 <= MAX_FILE_SIZE)%N ->
  (file_size f2 <= MAX_FILE_SIZE)%N ->
  (file_size f1 + file_size f2 <= MAX_COMBINED_SIZE)%N ->
  fd_kind (descriptor (loadFile toLowerCase fileTypeFromBuffer hashBuffer utf8Decode f1))
  = text ->
  fd_kind (descriptor (loadFile toLowerCase fileTypeFromBuffer hashBuffer utf8Decode f2))
  = text ->
  utf8Decode (file_bytes f1) <> EmptyString ->
  utf8Decode (file_bytes f2) <> EmptyString ->
  let d :=
    computeTextDiff diffLines (utf8Decode (file_bytes f1))
      (utf8Decode (file_bytes f2)) in
  POST toLowerCase fileTypeFromBuffer hashBuffer utf8Decode diffLines (Some entries)
  = json
      (mkDiffResult
         (descriptor (loadFile toLowerCase fileTypeFromBuffer hashBuffer utf8Decode f1),
          descriptor (loadFile toLowerCase fileTypeFromBuffer hashBuffer utf8Decode f2))
         (summary d) (Some (lines d)) None).
Proof.
  intros E H1 H2 H12 K1 K2 N1 N2 d. fold load in K1, K2 |- *. fold post.
  rewrite (post_two_files entries f1 f2 E H1 H2 H12).
  destruct (load_text f1 K1) as [T1 W1], (load_text f2 K2) as [T2 W2].
  unfold respond. rewrite K1, K2, T1, T2. cbn [flat_map]. rewrite W1, W2.
  cbn [isTextKind andb app nonEmpty JS.nullish].
  unfold falsy, JS.truthy, decodeText. rewrite !negb_involutive.
  destruct (String.eqb_spec (normalizeNewlines (utf8Decode (file_bytes f1))) "")
    as [Z1|_]; [now apply normalizeNewlines_empty in Z1|].
  destruct (String.eqb_spec (normalizeNewlines (utf8Decode (file_bytes f2))) "")
    as [Z2|_]; [now apply normalizeNewlines_empty in Z2|].
  cbn [orb].
  assert (Hd : computeTextDiff diffLines
                 (normalizeNewlines (utf8Decode (file_bytes f1)))
                 (normalizeNewlines (utf8Decode (file_bytes f2))) = d).
  { apply computeTextDiff_normalized;
      apply noCR_normalized, replaceCR_noCR. }
  now rewrite Hd.
Qed.

(** A text file whose decoded content is empty (an empty file, for one)
    cannot be compared: with two files classified as text, the handler
    answers with a validation error as soon as one decodes to the empty
    string. *)
Theorem POST_empty_text_refused (entries : list FormEntry) (f1 f2 : File) :
  uploadedFiles entries = [f1; f2] ->
  (file_size f1 <= MAX_FILE_SIZE)%N ->
  (file_size f2 <= MAX_FILE_SIZE)%N ->
  (file_size f1 + file_size f2 <= MAX_COMBINED_SIZE)%N ->
  fd_kind (descriptor (loadFile toLowerCase fileTypeFromBuffer hashBuffer utf8Decode f1))
  = text ->
  fd_kind (descriptor (loadFile toLowerCase fileTypeFromBuffer hashBuffer utf8Decode f2))
  = text ->
  utf8Decode (file_bytes f1) = EmptyString
  \/ utf8Decode (file_bytes f2) = EmptyString ->
  POST toLowerCase fileTypeFromBuffer hashBuffer utf8Decode diffLines (Some entries)
  = validationError "Could not read text contents from both files.".
Proof.
  intros E H1 H2 H12 K1 K2 Hempty. fold load in K1, K2. fold post.
  rewrite (post_two_files entries f1 f2 E H1 H2 H12).
  destruct (load_text f1 K1) as [T1 _], (load_text f2 K2) as [T2 _].
  unfold respond. rewrite K1, K2, T1, T2.
  cbn [isTextKind andb]. unfold falsy, JS.truthy, decodeText.
  rewrite !negb_involutive.
  destruct Hempty as [Z|Z]; rewrite Z;
    change (normalizeNewlines "") with "";
    rewrite String.eqb_refl, ?orb_true_r; reflexivity.
Qed.

(** When one of the two files is binary there is no line list: the
    summary has no line counts, the last warning says so, and the files
    are [identical] with [changePercent = 0] if they have the same bytes,
    not [identical] with [changePercent = 100] if their sizes differ. *)
Theorem POST_binary_pair (entries : list FormEntry) (f1 f2 : File) :
  uploadedFiles entries = [f1; f2] ->
  (file_size f1 <= MAX_FILE_SIZE)%N ->
  (file_size f2 <= MAX_FILE_SIZE)%N ->
  (file_size f1 + file_size f2 <= MAX_COMBINED_SIZE)%N ->
  fd_kind (descriptor (loadFile toLowerCase fileTypeFromBuffer hashBuffer utf8Decode f1))
  = binary
  \/ fd_kind (descriptor (loadFile toLowerCase fileTypeFromBuffer hashBuffer utf8Decode f2))
     = binary ->
  exists r,
    POST toLowerCase fileTypeFromBuffer hashBuffer utf8Decode diffLines (Some entries)
    = json r
    /\ dr_textDiff r = None
    /\ DiffSummary.totalLines (dr_summary r) = 0
    /\ DiffSummary.added (dr_summary r) = 0
    /\ DiffSummary.removed (dr_summary r) = 0
    /\ DiffSummary.modified (dr_summary r) = 0
    /\ (exists ws, dr_warnings r = Some (ws ++ [binaryWarning]))
    /\ (file_bytes f1 = file_bytes f2 ->
        DiffSummary.identical (dr_summary r) = true
        /\ DiffSummary.changePercent (dr_summary r) = 0%Z)
    /\ (List.length (file_bytes f1) <> List.length (file_bytes f2) ->
        DiffSummary.identical (dr_summary r) = false
        /\ DiffSummary.changePercent (dr_summary r) = 100%Z).
Proof.
  intros E H1 H2 H12 K. fold load in K. fold post.
  rewrite (post_two_files entries f1 f2 E H1 H2 H12).
  unfold respond.
  replace (isTextKind (fd_kind (descriptor (load f1)))
           && isTextKind (fd_kind (descriptor (load f2)))) with false
    by (destruct K as [-> | ->]; simpl; now rewrite ?andb_false_r).
  eexists. split; [reflexivity|].
  cbn [dr_textDiff dr_summary dr_warnings DiffSummary.totalLines
         DiffSummary.added DiffSummary.removed DiffSummary.modified
         DiffSummary.identical DiffSummary.changePercent].
  repeat (split; [reflexivity|]).
  split; [eexists; apply nonEmpty_snoc|].
  unfold load, loadFile.
  cbn [descriptor buildDescriptor fd_hash fd_size].
  split.
  - intros ->. rewrite String.eqb_refl, N.eqb_refl. split; reflexivity.
  - intros Hne.
    replace (N.of_nat (List.length (file_bytes f1))
             =? N.of_nat (List.length (file_bytes f2)))%N with false
      by (symmetry; apply N.eqb_neq; lia).
    rewrite andb_false_r. split; reflexivity.
Qed.

End RouteProperties.

Lemma POST_result_validated_witness :
  exists f1 f2,
    uploadedFiles
      [FileEntry (mkFile "a.txt" "text/plain" (list_byte_of_string "one"));
       StringEntry "note";
       FileEntry (mkFile "b.bin" "" [x00; x01])]
    = [f1; f2]
    /\ (file_size f1 <= MAX_FILE_SIZE)%N
    /\ (file_size f2 <= MAX_FILE_SIZE)%N
    /\ (file_size f1 + file_size f2 <= MAX_COMBINED_SIZE)%N.
Proof.
  edestruct (POST_result_validated JS.toLowerCase noSignature plainDigest asciiDecode
               LineDiff.diffLines
               (Some
                  [FileEntry
                     (mkFile "a.txt" "text/plain" (list_byte_of_string "one"));
                   StringEntry "note";
                   FileEntry (mkFile "b.bin" "" [x00; x01])]))
    as (entries & f1 & f2 & E & Hf & H1 & H2 & H12 & _).
  - vm_compute. reflexivity.
  - injection E as <-. exists f1, f2. repeat split; assumption.
Defined.

Lemma POST_text_pair_witness :
  POST JS.toLowerCase noSignature plainDigest asciiDecode LineDiff.diffLines
    (Some
       [FileEntry
          (mkFile "old.md" "" (list_byte_of_string (unlines ["a"; "b"])));
        FileEntry
          (mkFile "new.md" "" (list_byte_of_string (unlines ["a"; "c"])))])
  = json
      (mkDiffResult
         (mkFileDescriptor "old.md" "md" 4 "text/plain"
            (unlines ["a"; "b"]) text None,
          mkFileDescriptor "new.md" "md" 4 "text/plain"
            (unlines ["a"; "c"]) text None)
         (DiffSummary.mk false 2 0 0 1 50)
         (Some
            [DiffLine.mk unchanged (Some 1) (Some 1) (Some "a") (Some "a");
             DiffLine.mk modified (Some 2) (Some 2) (Some "b") (Some "c")])
         None).
Proof.
  apply (POST_text_pair JS.toLowerCase noSignature plainDigest asciiDecode
           LineDiff.diffLines
           [FileEntry
              (mkFile "old.md" "" (list_byte_of_string (unlines ["a"; "b"])));
            FileEntry
              (mkFile "new.md" "" (list_byte_of_string (unlines ["a"; "c"])))]
           (mkFile "old.md" "" (list_byte_of_string (unlines ["a"; "b"])))
           (mkFile "new.md" "" (list_byte_of_string (unlines ["a"; "c"]))));
    try reflexivity; try discriminate; vm_compute; discriminate.
Defined.

Lemma POST_empty_text_refused_witness :
  POST JS.toLowerCase noSignature plainDigest asciiDecode LineDiff.diffLines
    (Some
       [FileEntry (mkFile "empty.txt" "" []);
        FileEntry (mkFile "notes.txt" "text/plain"
                     (list_byte_of_string "words"))])
  = validationError "Could not read text contents from both files.".
Proof.
  apply (POST_empty_text_refused JS.toLowerCase noSignature plainDigest asciiDecode
           LineDiff.diffLines _
           (mkFile "empty.txt" "" [])
           (mkFile "notes.txt" "text/plain" (list_byte_of_string "words")));
    try reflexivity; try (vm_compute; discriminate).
  left. reflexivity.
Defined.

Lemma POST_binary_pair_witness :
  exists r,
    POST JS.toLowerCase noSignature plainDigest asciiDecode LineDiff.diffLines
      (Some
         [FileEntry (mkFile "a.bin" "" [x00; x01]);
          FileEntry (mkFile "b.bin" "" [x00; x01])])
    = json r
    /\ dr_textDiff r = None
    /\ DiffSummary.identical (dr_summary r) = true
    /\ DiffSummary.changePercent (dr_summary r) = 0%Z.
Proof.
  destruct (POST_binary_pair JS.toLowerCase noSignature plainDigest asciiDecode
              LineDiff.diffLines
              [FileEntry (mkFile "a.bin" "" [x00; x01]);
               FileEntry (mkFile "b.bin" "" [x00; x01])]
              (mkFile "a.bin" "" [x00; x01])
              (mkFile "b.bin" "" [x00; x01])
              eq_refl
              ltac:(vm_compute; discriminate)
              ltac:(vm_compute; discriminate)
              ltac:(vm_compute; discriminate)
              (or_introl eq_refl))
    as (r & Hr & Ht & _ & _ & _ & _ & _ & Hsame & _).
  exists r. destruct (Hsame eq_refl) as [Hi Hc].
  repeat split; assumption.
Defined.

(** ** The page *)

(** What the uploader accepts as a pair, the route does not reject for
    count or size: after [validateFiles] returned no error for two files,
    the only validation error the handler can still answer is the one
    about unreadable text contents. *)
Theorem client_validation_implies_server
  (toLowerCase : string -> string)
  (fileTypeFromBuffer : list byte -> option FileTypeResult)
  (hashBuffer : list byte -> string)
  (utf8Decode : list byte -> string)
  (diffLines : string -> string -> list Change.t)
  (files : list File) (message : string) :
  validateFiles files = None ->
  List.length files = 2 ->
  POST toLowerCase fileTypeFromBuffer hashBuffer utf8Decode diffLines
    (Some (map FileEntry files))
  = validationError message ->
  message = "Could not read text contents from both files.".
Proof.
  intros Hv Hlen.
  destruct files as [|f1 [|f2 [|f3 rest]]]; try discriminate Hlen.
  unfold validateFiles in Hv.
  cbn [List.length Nat.eqb Nat.ltb Nat.leb existsb fold_left andb] in Hv.
  destruct (N.ltb_spec MAX_FILE_SIZE (file_size f1)) as [|H1];
    [discriminate Hv|].
  destruct (N.ltb_spec MAX_FILE_SIZE (file_size f2)) as [|H2];
    [discriminate Hv|].
  cbn [orb] in Hv.
  destruct (_ || _) in Hv; [discriminate Hv|].
  rewrite N.add_0_l in Hv.
  destruct (N.ltb_spec MAX_COMBINED_SIZE (file_size f1 + file_size f2))
    as [|H12]; [discriminate Hv|].
  rewrite (post_two_files toLowerCase fileTypeFromBuffer hashBuffer utf8Decode
             diffLines
             (map FileEntry [f1; f2]) f1 f2 eq_refl H1 H2 H12).
  unfold respond.
  destruct (_ && _); [destruct (_ || _)|]; intros H;
    try discriminate H.
  now injection H as <-.
Qed.

Lemma client_validation_implies_server_witness :
  POST JS.toLowerCase noSignature plainDigest asciiDecode LineDiff.diffLines
    (Some
       (map FileEntry
          [mkFile "empty.txt" "" [];
           mkFile "notes.txt" "text/plain" (list_byte_of_string "words")]))
  = validationError "Could not read text contents from both files.".
Proof.
  assert (H : exists message,
             POST JS.toLowerCase noSignature plainDigest asciiDecode LineDiff.diffLines
               (Some
                  (map FileEntry
                     [mkFile "empty.txt" "" [];
                      mkFile "notes.txt" "text/plain"
                        (list_byte_of_string "words")]))
             = validationError message)
    by (eexists; vm_compute; reflexivity).
  destruct H as [message H].
  rewrite H. f_equal.
  exact (client_validation_implies_server JS.toLowerCase noSignature plainDigest asciiDecode
           LineDiff.diffLines
           [mkFile "empty.txt" "" [];
            mkFile "notes.txt" "text/plain" (list_byte_of_string "words")]
           message eq_refl eq_refl H).
Defined.

Lemma changePositionsFrom_length (ls : list DiffLine.t) :
  forall idx,
    List.length (changePositionsFrom idx ls)
    = List.length (filter isChange ls).
Proof.
  induction ls as [|l ls IH]; intros idx; simpl; [reflexivity|].
  destruct (isChange l); simpl; now rewrite IH.
Qed.

Lemma changePositionsFrom_all (ls : list DiffLine.t) :
  forall idx,
    changePositionsFrom idx (filter isChange ls)
    = seq idx (List.length (filter isChange ls)).
Proof.
  induction ls as [|l ls IH]; intros idx; simpl; [reflexivity|].
  destruct (isChange l) eqn:E; simpl; [|apply IH].
  now rewrite E, IH.
Qed.

Lemma filter_isChange_idem (ls : list DiffLine.t) :
  filter isChange (filter isChange ls) = filter isChange ls.
Proof.
  induction ls as [|l ls IH]; simpl; [reflexivity|].
  destruct (isChange l) eqn:E; simpl; [now rewrite E, IH | exact IH].
Qed.

Lemma changes_counted (ls : list DiffLine.t) :
  List.length (filter isChange ls)
  = countType added ls + countType removed ls + countType modified ls.
Proof.
  unfold countType, isChange, hasType.
  induction ls as [|l ls IH]; simpl; [reflexivity|].
  destruct (DiffLine.type l); simpl; rewrite IH; lia.
Qed.

(** The positions the page can jump to are as many as the summary counts
    changes ([added + removed + modified]), whether unchanged lines are
    hidden or not; when they are hidden, every displayed line is such a
    position. *)
Theorem change_positions_match_summary
  (diffLines : string -> string -> list Change.t)
  (original comparison : string) (hideUnchanged : bool) :
  let r := computeTextDiff diffLines original comparison in
  let displayed := displayedLines hideUnchanged (Some (lines r)) in
  List.length (changePositions displayed)
  = DiffSummary.added (summary r) + DiffSummary.removed (summary r)
    + DiffSummary.modified (summary r)
  /\ changePositions (displayedLines true (Some (lines r)))
     = seq 0 (List.length (displayedLines true (Some (lines r)))).
Proof.
  intros r displayed. subst displayed. unfold changePositions, displayedLines.
  split; [|apply changePositionsFrom_all].
  rewrite changePositionsFrom_length.
  replace (filter isChange
             (if hideUnchanged then filter isChange (lines r) else lines r))
    with (filter isChange (lines r))
    by (destruct hideUnchanged; now rewrite ?filter_isChange_idem).
  rewrite changes_counted.
  destruct (scan_counts
              (diffLines (normalizeNewlines original)
                 (normalizeNewlines comparison))) as (Ha & Hr & Hm).
  subst r. simpl. now rewrite <- Ha, <- Hr, <- Hm.
Qed.

(** A recognised image signature decides, against the declared type and
    the name of the file: the descriptor has the sniffed type and the
    kind binary, and the file is neither decoded nor warned about. *)
Theorem loadFile_image_signature
  (toLowerCase : string -> string)
  (fileTypeFromBuffer : list byte -> option FileTypeResult)
  (hashBuffer : list byte -> string)
  (utf8Decode : list byte -> string)
  (file : File) (ext rest : string) :
  fileTypeFromBuffer (file_bytes file)
  = Some (mkFileTypeResult ext ("image/" ++ rest)%string) ->
  let loaded := loadFile toLowerCase fileTypeFromBuffer hashBuffer utf8Decode file in
  fd_mime (descriptor loaded) = ("image/" ++ rest)%string
  /\ fd_kind (descriptor loaded) = binary
  /\ fd_warnings (descriptor loaded) = None
  /\ loaded_text loaded = None.
Proof.
  intros H loaded. subst loaded.
  unfold loadFile, sniffMime, classifyKind, isProbablyText.
  rewrite H. destruct rest; repeat split; reflexivity.
Qed.

Lemma loadFile_image_signature_witness :
  fd_kind
    (descriptor
       (loadFile JS.toLowerCase pngSniffer plainDigest asciiDecode
          (mkFile "notes.txt" "text/plain" onePixelPng)))
  = binary.
Proof.
  apply (loadFile_image_signature JS.toLowerCase pngSniffer plainDigest
           asciiDecode (mkFile "notes.txt" "text/plain" onePixelPng)
           "png" "png").
  reflexivity.
Defined.

Lemma validateFiles_at_most_two (files : list File) :
  validateFiles files = None -> 1 <= List.length files <= 2.
Proof.
  unfold validateFiles.
  destruct (Nat.eqb_spec (List.length files) 0); [discriminate|].
  destruct (Nat.ltb_spec 2 (List.length files)); [discriminate|].
  intros _. lia.
Qed.

(** Whatever files are chosen, dropped or cleared, in whatever order, the
    selection of the page never holds more than two files and, unless it
    is empty, passes [validateFiles]; the trimming to two files never
    discards a file. *)
Theorem selection_always_valid (events : list PageEvent) :
  List.length (runPage events) <= 2
  /\ (runPage events = [] \/ validateFiles (runPage events) = None).
Proof.
  unfold runPage.
  assert (H : forall sel,
             (sel = [] \/ validateFiles sel = None) ->
             fold_left pageStep events sel = []
             \/ validateFiles (fold_left pageStep events sel) = None).
  { induction events as [|e events IH]; intros sel Hsel; [exact Hsel|].
    cbn [fold_left]. apply IH.
    destruct e as [[incoming|]|]; unfold pageStep, handleFiles;
      [|exact Hsel|now left].
    destruct (List.length incoming =? 0)%nat; [exact Hsel|].
    destruct (validateFiles (sel ++ incoming)) eqn:V; [exact Hsel|].
    right. rewrite firstn_all2; [exact V|].
    apply validateFiles_at_most_two in V. lia. }
  destruct (H [] (or_introl eq_refl)) as [E|V].
  - rewrite E. split; [simpl; lia | now left].
  - split; [apply validateFiles_at_most_two in V; lia | now right].
Qed.
